(** * Poker tournament manager: clock, ledger, prize pool and ranking

    A shallow embedding of [src/App.jsx] (and of the prize pool of
    [src/TVScreenPublic.jsx]).

    Modelling conventions.
    - JavaScript numbers that the program uses as counters, indices, chip
      counts and seconds are integers ([Z]); the numeric form inputs are
      taken to deliver integers for them.
    - JavaScript numbers that carry money, percentages and weights are real
      numbers ([R]): the arithmetic is the exact one, the rounding of IEEE
      doubles is not modelled.  Where the rounding decides a property, the
      prize pool is embedded a second time over binary64 floats, in module
      [Double].
    - A React state update [save(patch)] is the pure function that merges
      the patch over the record; a handler is the function from the state
      it was rendered with to the state it installs.
    - The spec calls [actions] "entries", [hasTimeChip] "hasBonusEntryChip"
      and [timeChip...] "bonusEntryChip..."; the source's names are kept. *)

From Stdlib Require Import ZArith Reals Lra Lia List Bool String Ascii.
From Stdlib Require Import Permutation Sorted DecimalString.
From Stdlib Require Floats Uint63.
Import ListNotations.

Open Scope Z_scope.

(** ** Strings

    A JavaScript string is a sequence of UTF-16 code units. *)

Definition jsString := list N.

Definition js (s : string) : jsString :=
  map N_of_ascii (list_ascii_of_string s).

(** The code units removed by [String.prototype.trim]: WhiteSpace and
    LineTerminator of the language specification. *)
Definition isWhiteSpace (c : N) : bool :=
  (((9 <=? c) && (c <=? 13)) || (c =? 32) || (c =? 160) || (c =? 5760)
   || ((8192 <=? c) && (c <=? 8202)) || (c =? 8232) || (c =? 8233)
   || (c =? 8239) || (c =? 8287) || (c =? 12288) || (c =? 65279))%N.

Fixpoint trimStart (s : jsString) : jsString :=
  match s with
  | [] => []
  | c :: s' => if isWhiteSpace c then trimStart s' else s
  end.

Definition trimEnd (s : jsString) : jsString := rev (trimStart (rev s)).

Definition trim (s : jsString) : jsString := trimEnd (trimStart s).

(** Truthiness of a string: the empty string is the only falsy one. *)
Definition truthy (s : jsString) : bool :=
  match s with [] => false | _ :: _ => true end.

(** ** Data model *)

Record BlindLevel := mkBlind {
  level : Z;
  smallBlind : Z;
  bigBlind : Z;
  ante : Z;
  isBreak : option bool;        (* absent in the plain default levels *)
  breakDuration : option Z
}.

Record Player := mkPlayer {
  id : Z;                       (* Date.now() at admission *)
  name : jsString;
  actions : Z;
  rebuys : Z;
  addons : Z;
  chips : Z;
  position : option Z;          (* null until eliminated *)
  prize : R;
  active : bool;
  hasTimeChip : bool;
  hasExtraChip : bool
}.

Record Tournament := mkTournament {
  tid : string;
  tname : string;
  players : list Player;
  blinds : list BlindLevel;
  levelDuration : Z;
  currentLevelIndex : Z;
  timeLeft : Z;
  isRunning : bool;
  stageWeight : R;
  buyInValue : R;
  buyInChips : Z;
  rebuyValue : R;
  rebuyChips : Z;
  addonValue : R;
  addonChips : Z;
  adminFeePercent : R;
  timeChipEnabled : bool;
  timeChipValue : Z;
  extraChipEnabled : bool;
  extraChipValue : R;
  extraChipAmount : Z
}.

Definition defaultBlindStructure : list BlindLevel :=
  [ mkBlind 1 25 50 0 None None;
    mkBlind 2 50 100 0 None None;
    mkBlind 3 75 150 25 (Some true) (Some 10);
    mkBlind 4 100 200 25 None None;
    mkBlind 5 150 300 50 None None ].

Definition clamp (v a b : Z) : Z := Z.max a (Z.min b v).

(** [tournament.blinds.length] *)
Definition blindsLength (t : Tournament) : Z := Z.of_nat (List.length (blinds t)).

(** ** Patches

    The objects handed to [save]/[update]: a list of field assignments,
    merged left to right over the record ([{ ...active, ...patch }]). *)

Inductive Field :=
| FPlayers (v : list Player)
| FBlinds (v : list BlindLevel)
| FLevelDuration (v : Z)
| FCurrentLevelIndex (v : Z)
| FTimeLeft (v : Z)
| FIsRunning (v : bool)
| FStageWeight (v : R)
| FBuyInValue (v : R)
| FBuyInChips (v : Z)
| FRebuyValue (v : R)
| FRebuyChips (v : Z)
| FAddonValue (v : R)
| FAddonChips (v : Z)
| FAdminFeePercent (v : R)
| FTimeChipEnabled (v : bool)
| FTimeChipValue (v : Z)
| FExtraChipEnabled (v : bool)
| FExtraChipValue (v : R)
| FExtraChipAmount (v : Z).

Definition Patch := list Field.

Definition assign (t : Tournament) (f : Field) : Tournament :=
  let 'mkTournament i n ps bs ld ci tl run sw bv bc rv rc av ac fee te tv ee ev ea := t in
  match f with
  | FPlayers v => mkTournament i n v bs ld ci tl run sw bv bc rv rc av ac fee te tv ee ev ea
  | FBlinds v => mkTournament i n ps v ld ci tl run sw bv bc rv rc av ac fee te tv ee ev ea
  | FLevelDuration v => mkTournament i n ps bs v ci tl run sw bv bc rv rc av ac fee te tv ee ev ea
  | FCurrentLevelIndex v => mkTournament i n ps bs ld v tl run sw bv bc rv rc av ac fee te tv ee ev ea
  | FTimeLeft v => mkTournament i n ps bs ld ci v run sw bv bc rv rc av ac fee te tv ee ev ea
  | FIsRunning v => mkTournament i n ps bs ld ci tl v sw bv bc rv rc av ac fee te tv ee ev ea
  | FStageWeight v => mkTournament i n ps bs ld ci tl run v bv bc rv rc av ac fee te tv ee ev ea
  | FBuyInValue v => mkTournament i n ps bs ld ci tl run sw v bc rv rc av ac fee te tv ee ev ea
  | FBuyInChips v => mkTournament i n ps bs ld ci tl run sw bv v rv rc av ac fee te tv ee ev ea
  | FRebuyValue v => mkTournament i n ps bs ld ci tl run sw bv bc v rc av ac fee te tv ee ev ea
  | FRebuyChips v => mkTournament i n ps bs ld ci tl run sw bv bc rv v av ac fee te tv ee ev ea
  | FAddonValue v => mkTournament i n ps bs ld ci tl run sw bv bc rv rc v ac fee te tv ee ev ea
  | FAddonChips v => mkTournament i n ps bs ld ci tl run sw bv bc rv rc av v fee te tv ee ev ea
  | FAdminFeePercent v => mkTournament i n ps bs ld ci tl run sw bv bc rv rc av ac v te tv ee ev ea
  | FTimeChipEnabled v => mkTournament i n ps bs ld ci tl run sw bv bc rv rc av ac fee v tv ee ev ea
  | FTimeChipValue v => mkTournament i n ps bs ld ci tl run sw bv bc rv rc av ac fee te v ee ev ea
  | FExtraChipEnabled v => mkTournament i n ps bs ld ci tl run sw bv bc rv rc av ac fee te tv v ev ea
  | FExtraChipValue v => mkTournament i n ps bs ld ci tl run sw bv bc rv rc av ac fee te tv ee v ea
  | FExtraChipAmount v => mkTournament i n ps bs ld ci tl run sw bv bc rv rc av ac fee te tv ee ev v
  end.

(** [save(patch)] of [PokerTournamentManagerApp], on the active tournament. *)
Definition save (patch : Patch) (t : Tournament) : Tournament :=
  fold_left assign patch t.

(** ** Clock (component [TVScreen]) *)

(** What the timer effect does for the state it is run with: arm the
    one-second interval whose callback sends a patch, send a patch at once,
    or nothing. *)
Inductive TimerAction :=
| AfterOneSecond (p : Patch)
| AtOnce (p : Patch)
| Idle.

Definition timerEffect (t : Tournament) : TimerAction :=
  if isRunning t && (timeLeft t >? 0) then
    AfterOneSecond [FTimeLeft (timeLeft t - 1)]
  else if isRunning t && (timeLeft t =? 0) then
    let next := clamp (currentLevelIndex t + 1) 0 (blindsLength t - 1) in
    AtOnce [FCurrentLevelIndex next;
            FTimeLeft (levelDuration t * 60);
            FIsRunning (if next =? blindsLength t - 1 then false else isRunning t)]
  else Idle.

Definition timerPatch (a : TimerAction) : Patch :=
  match a with AfterOneSecond p => p | AtOnce p => p | Idle => [] end.

(** One scheduling tick: the update the timer effect issues for [t]. *)
Definition tick (t : Tournament) : Tournament :=
  save (timerPatch (timerEffect t)) t.

Fixpoint ticks (n : nat) (t : Tournament) : Tournament :=
  match n with
  | O => t
  | S n' => ticks n' (tick t)
  end.

(** The control buttons. *)
Definition toggleRunning (t : Tournament) : Tournament :=
  save [FIsRunning (negb (isRunning t))] t.

Definition reset (t : Tournament) : Tournament :=
  save [FIsRunning false; FCurrentLevelIndex 0; FTimeLeft (levelDuration t * 60)] t.

Definition jumpLevel (delta : Z) (t : Tournament) : Tournament :=
  save [FCurrentLevelIndex (clamp (currentLevelIndex t + delta) 0 (blindsLength t - 1));
        FTimeLeft (levelDuration t * 60)] t.

Definition previousLevel := jumpLevel (-1).
Definition nextLevel := jumpLevel 1.

(** [array[i]] for an integer index: [undefined] outside the array. *)
Definition at_index {A : Type} (l : list A) (i : Z) : option A :=
  if i <? 0 then None else nth_error l (Z.to_nat i).

(** [tournament.blinds[tournament.currentLevelIndex] ?? { level: 0, ... }] *)
Definition currentLevel (t : Tournament) : BlindLevel :=
  match at_index (blinds t) (currentLevelIndex t) with
  | Some b => b
  | None => mkBlind 0 0 0 0 (Some false) None
  end.

(** ** Numeric form inputs

    [Number(e.target.value) || d]: [None] stands for [NaN]. *)

Definition orZ (v : option Z) (d : Z) : Z :=
  match v with
  | Some n => if n =? 0 then d else n
  | None => d
  end.

Definition orR (v : option R) (d : R) : R :=
  match v with
  | Some x => if Req_dec_T x 0 then d else x
  | None => d
  end.

(** ** Player ledger (component [AdminPanel]) *)

Inductive PlayerField :=
| PActions (v : Z)
| PRebuys (v : Z)
| PAddons (v : Z)
| PChips (v : Z)
| PPosition (v : option Z)
| PActive (v : bool)
| PHasExtraChip (v : bool).

Definition assignPlayer (p : Player) (f : PlayerField) : Player :=
  let 'mkPlayer i n a r ad c pos pr act tc ec := p in
  match f with
  | PActions v => mkPlayer i n v r ad c pos pr act tc ec
  | PRebuys v => mkPlayer i n a v ad c pos pr act tc ec
  | PAddons v => mkPlayer i n a r v c pos pr act tc ec
  | PChips v => mkPlayer i n a r ad v pos pr act tc ec
  | PPosition v => mkPlayer i n a r ad c v pr act tc ec
  | PActive v => mkPlayer i n a r ad c pos pr v tc ec
  | PHasExtraChip v => mkPlayer i n a r ad c pos pr act tc v
  end.

Definition patchPlayer (patch : list PlayerField) (p : Player) : Player :=
  fold_left assignPlayer patch p.

(** [addPlayer]: [now] is the reading of [Date.now()], [newPlayerName] the
    component's input state, which is returned with the tournament. *)
Definition addPlayer (now : Z) (newPlayerName : jsString) (t : Tournament)
  : Tournament * jsString :=
  if negb (truthy (trim newPlayerName)) then (t, newPlayerName)
  else
    let isTimeChipEligible := timeChipEnabled t && (currentLevelIndex t <? 2) in
    let timeChipBonus := if isTimeChipEligible then timeChipValue t else 0 in
    let p := mkPlayer now (trim newPlayerName) 1 0 0
                      (buyInChips t + timeChipBonus)
                      None 0%R true isTimeChipEligible false in
    (save [FPlayers (players t ++ [p])] t, []).

Definition updatePlayer (i : Z) (patch : list PlayerField) (t : Tournament)
  : Tournament :=
  save [FPlayers (map (fun p => if id p =? i then patchPlayer patch p else p)
                      (players t))] t.

Definition removePlayer (i : Z) (t : Tournament) : Tournament :=
  save [FPlayers (filter (fun p => negb (id p =? i)) (players t))] t.

(** The handlers of a player's row; [p] is the player the row was rendered
    for. *)
Definition setChips (v : Z) (p : Player) (t : Tournament) : Tournament :=
  updatePlayer (id p) [PChips v] t.

(** The button is rendered only when
    [tournament.extraChipEnabled && !p.hasExtraChip]. *)
Definition purchaseExtraChip (p : Player) (t : Tournament) : Tournament :=
  if extraChipEnabled t && negb (hasExtraChip p) then
    updatePlayer (id p)
      [PHasExtraChip true; PChips (chips p + extraChipAmount t)] t
  else t.

Definition rebuy (p : Player) (t : Tournament) : Tournament :=
  updatePlayer (id p)
    [PRebuys (rebuys p + 1); PActions (actions p + 1);
     PChips (chips p + rebuyChips t)] t.

Definition addon (p : Player) (t : Tournament) : Tournament :=
  updatePlayer (id p)
    [PAddons (addons p + 1); PChips (chips p + addonChips t)] t.

(** [tournament.players.filter(x => x.active).length] *)
Definition activeCount (ps : list Player) : Z :=
  Z.of_nat (List.length (filter active ps)).

Definition eliminate (p : Player) (t : Tournament) : Tournament :=
  updatePlayer (id p)
    [PActive false; PPosition (Some (activeCount (players t)))] t.

Definition removeRow (p : Player) (t : Tournament) : Tournament :=
  removePlayer (id p) t.

(** The tournament settings. *)
Definition setLevelDuration (v : option Z) (t : Tournament) : Tournament :=
  save [FLevelDuration (clamp (orZ v 1) 1 180);
        FTimeLeft (clamp (orZ v 1) 1 180 * 60)] t.

Definition setCurrentLevel (v : option Z) (t : Tournament) : Tournament :=
  save [FCurrentLevelIndex (clamp (orZ v 0) 0 (blindsLength t - 1));
        FTimeLeft (levelDuration t * 60)] t.

Inductive ConfigInput :=
| CStageWeight (v : option R)
| CAdminFeePercent (v : option R)
| CBuyInValue (v : option R)
| CBuyInChips (v : option Z)
| CRebuyValue (v : option R)
| CRebuyChips (v : option Z)
| CAddonValue (v : option R)
| CAddonChips (v : option Z)
| CTimeChipEnabled (checked : bool)
| CTimeChipValue (v : option Z)
| CExtraChipEnabled (checked : bool)
| CExtraChipValue (v : option R)
| CExtraChipAmount (v : option Z).

Definition configPatch (c : ConfigInput) : Patch :=
  match c with
  | CStageWeight v => [FStageWeight (orR v 1)]
  | CAdminFeePercent v => [FAdminFeePercent (orR v 0)]
  | CBuyInValue v => [FBuyInValue (orR v 0)]
  | CBuyInChips v => [FBuyInChips (orZ v 0)]
  | CRebuyValue v => [FRebuyValue (orR v 0)]
  | CRebuyChips v => [FRebuyChips (orZ v 0)]
  | CAddonValue v => [FAddonValue (orR v 0)]
  | CAddonChips v => [FAddonChips (orZ v 0)]
  | CTimeChipEnabled b => [FTimeChipEnabled b]
  | CTimeChipValue v => [FTimeChipValue (orZ v 0)]
  | CExtraChipEnabled b => [FExtraChipEnabled b]
  | CExtraChipValue v => [FExtraChipValue (orR v 0)]
  | CExtraChipAmount v => [FExtraChipAmount (orZ v 0)]
  end.

Definition setConfig (c : ConfigInput) (t : Tournament) : Tournament :=
  save (configPatch c) t.

(** ** Blind schedule (component [BlindsManager]) *)

Inductive BlindField :=
| BLevel (v : Z)
| BSmallBlind (v : Z)
| BBigBlind (v : Z)
| BAnte (v : Z)
| BBreakDuration (v : Z).

Definition assignBlind (b : BlindLevel) (f : BlindField) : BlindLevel :=
  let 'mkBlind l sb bb a br bd := b in
  match f with
  | BLevel v => mkBlind v sb bb a br bd
  | BSmallBlind v => mkBlind l v bb a br bd
  | BBigBlind v => mkBlind l sb v a br bd
  | BAnte v => mkBlind l sb bb v br bd
  | BBreakDuration v => mkBlind l sb bb a br (Some v)
  end.

(** [array.map((x, i) => ...)] and [array.filter((x, i) => ...)];
    [i] is the index of the head. *)
Fixpoint mapi {A B : Type} (f : A -> nat -> B) (i : nat) (l : list A) : list B :=
  match l with
  | [] => []
  | x :: l' => f x i :: mapi f (S i) l'
  end.

Fixpoint filteri {A : Type} (f : A -> nat -> bool) (i : nat) (l : list A) : list A :=
  match l with
  | [] => []
  | x :: l' => if f x i then x :: filteri f (S i) l' else filteri f (S i) l'
  end.

(** [tournament.blinds[tournament.blinds.length - 1]] *)
Definition lastLevel (t : Tournament) : option BlindLevel :=
  at_index (blinds t) (blindsLength t - 1).

Definition addBlindLevel (t : Tournament) : Tournament :=
  let l := lastLevel t in
  let newLevel :=
    mkBlind (orZ (option_map level l) 0 + 1)
            (orZ (option_map smallBlind l) 25 * 2)
            (orZ (option_map bigBlind l) 50 * 2)
            (orZ (option_map ante l) 0)
            (Some false) None in
  save [FBlinds (blinds t ++ [newLevel])] t.

Definition addBreak (t : Tournament) : Tournament :=
  let l := lastLevel t in
  let newBreak :=
    mkBlind (orZ (option_map level l) 0 + 1) 0 0 0 (Some true) (Some 10) in
  save [FBlinds (blinds t ++ [newBreak])] t.

Definition updateBlind (index : nat) (patch : list BlindField) (t : Tournament)
  : Tournament :=
  save [FBlinds (mapi (fun b i => if Nat.eqb i index
                                  then fold_left assignBlind patch b else b)
                      0 (blinds t))] t.

Definition removeBlind (index : nat) (t : Tournament) : Tournament :=
  save [FBlinds (filteri (fun _ i => negb (Nat.eqb i index)) 0 (blinds t))] t.

(** ** Prize pool (components [TVScreen] and [TVScreenPublic]) *)

Definition totalPrizePool (t : Tournament) : R :=
  fold_left (fun s p =>
    let actionsTotal := (IZR (actions p) * buyInValue t)%R in
    let addonsTotal := (IZR (addons p) * addonValue t)%R in
    let extraChipTotal := if hasExtraChip p then extraChipValue t else 0%R in
    let total := (actionsTotal + addonsTotal + extraChipTotal)%R in
    let afterFee := (total * (1 - adminFeePercent t / 100))%R in
    (s + afterFee)%R) (players t) 0%R.

Module TVScreenPublic.

Definition totalPrizePool (t : Tournament) : R :=
  fold_left (fun s p =>
    let actionsTotal := (IZR (actions p) * buyInValue t)%R in
    let addonsTotal := (IZR (addons p) * addonValue t)%R in
    let extraChipTotal := if hasExtraChip p then extraChipValue t else 0%R in
    let total := (actionsTotal + addonsTotal + extraChipTotal)%R in
    let afterFee := (total * (1 - adminFeePercent t / 100))%R in
    (s + afterFee)%R) (players t) 0%R.

End TVScreenPublic.

(** The prize pool in the words of the specification: the sum over the
    players of the net contribution. *)
Definition grossContribution (t : Tournament) (p : Player) : R :=
  (IZR (actions p) * buyInValue t + IZR (addons p) * addonValue t
   + (if hasExtraChip p then extraChipValue t else 0))%R.

Definition netContribution (t : Tournament) (p : Player) : R :=
  (grossContribution t p * (1 - adminFeePercent t / 100))%R.

Fixpoint sumOver {A : Type} (f : A -> R) (l : list A) : R :=
  match l with
  | [] => 0%R
  | x :: l' => (f x + sumOver f l')%R
  end.

Definition prizePoolSpec (t : Tournament) : R :=
  sumOver (netContribution t) (players t).

(** ** Ranking (function [calculateRanking], component [RankingViewer]) *)

(** [Math.pow] on a positive base is the real power; [calculateRanking]
    calls it behind a guard that makes the base positive. *)
Definition Math_pow (x y : R) : R := Rpower x y.

Definition calculateRanking (actions position : Z) (stageWeight : R) : R :=
  if (position <=? 0) || (actions <=? 0) then 0%R
  else (Math_pow (IZR actions / IZR position * 100) (1 / 2) * stageWeight)%R.

(** [{ ...p, score, finalPosition }] *)
Record ScoredPlayer := mkScored {
  player : Player;
  score : R;
  finalPosition : Z
}.

(** [Array.prototype.sort(comparefn)] for a comparison function that is a
    consistent ordering: the stable sort, as an insertion sort.  An element
    moves behind a later one only when [comparefn] of the two is positive. *)
Fixpoint sortInsert {A : Type} (comparefn : A -> A -> R) (x : A) (l : list A)
  : list A :=
  match l with
  | [] => [x]
  | y :: l' => if Rlt_dec 0 (comparefn x y)
               then y :: sortInsert comparefn x l'
               else x :: l
  end.

Fixpoint sort {A : Type} (comparefn : A -> A -> R) (l : list A) : list A :=
  match l with
  | [] => []
  | x :: l' => sortInsert comparefn x (sort comparefn l')
  end.

Definition playersLength (t : Tournament) : Z := Z.of_nat (List.length (players t)).

(** [p.position ?? (p.active ? players.length : players.length)] *)
Definition effectivePosition (t : Tournament) (p : Player) : Z :=
  match position p with
  | Some n => n
  | None => if active p then playersLength t else playersLength t
  end.

Definition scored (t : Tournament) (p : Player) : ScoredPlayer :=
  let position := effectivePosition t p in
  let score := calculateRanking (actions p) position (stageWeight t) in
  mkScored p score position.

Definition withScores (t : Tournament) : list ScoredPlayer :=
  sort (fun a b => (score b - score a)%R) (map (scored t) (players t)).

(** ** Tournament store (component [TournamentsProvider]) *)

Record Store := mkStore {
  tournaments : list Tournament;
  activeTournamentId : option string      (* null: no selection *)
}.

Definition emptyStore : Store := mkStore [] None.

(** The record [createTournament] builds; [newId] is the value of
    [uid('tr_')]. *)
Definition newTournament (newId name : string) : Tournament :=
  mkTournament newId name [] defaultBlindStructure 10 0 (10 * 60) false
               1%R 100%R 10000 100%R 10000 50%R 5000 10%R
               false 2000 false 20%R 2000.

Definition createTournament (newId name : string) (s : Store) : Store :=
  let t := newTournament newId name in
  mkStore (t :: tournaments s) (Some (tid t)).

Definition updateTournament (i : string) (patch : Patch) (s : Store) : Store :=
  mkStore (map (fun t => if String.eqb (tid t) i then save patch t else t)
               (tournaments s))
          (activeTournamentId s).

(** [tournaments[0]?.id ?? null] *)
Definition firstId (ts : list Tournament) : option string :=
  match ts with
  | [] => None
  | t :: _ => Some (tid t)
  end.

(** The second state update reads [tournaments] of the render the handler
    belongs to: the collection before the removal. *)
Definition removeTournament (i : string) (s : Store) : Store :=
  mkStore (filter (fun t => negb (String.eqb (tid t) i)) (tournaments s))
          (match activeTournamentId s with
           | Some cur => if String.eqb cur i then firstId (tournaments s)
                         else Some cur
           | None => None
           end).

(** [tournaments.find(t => t.id === activeTournamentId)] *)
Definition activeTournament (s : Store) : option Tournament :=
  match activeTournamentId s with
  | Some cur => find (fun t => String.eqb (tid t) cur) (tournaments s)
  | None => None
  end.

(** ** Operations on a tournament

    Every handler that changes the active tournament, as one type; a row
    handler acts on the player rendered in that row of the list. *)

Inductive Op :=
| OTick
| OToggleRunning
| OReset
| OPreviousLevel
| ONextLevel
| OSetLevelDuration (v : option Z)
| OSetCurrentLevel (v : option Z)
| OSetConfig (c : ConfigInput)
| OAddPlayer (now : Z) (newPlayerName : jsString)
| OSetChips (row : nat) (v : Z)
| OPurchaseExtraChip (row : nat)
| ORebuy (row : nat)
| OAddon (row : nat)
| OEliminate (row : nat)
| ORemovePlayer (row : nat)
| OAddBlindLevel
| OAddBreak
| OUpdateBlind (index : nat) (patch : list BlindField)
| ORemoveBlind (index : nat).

Definition onRow (row : nat) (h : Player -> Tournament -> Tournament)
  (t : Tournament) : Tournament :=
  match nth_error (players t) row with
  | Some p => h p t
  | None => t
  end.

Definition apply (o : Op) (t : Tournament) : Tournament :=
  match o with
  | OTick => tick t
  | OToggleRunning => toggleRunning t
  | OReset => reset t
  | OPreviousLevel => previousLevel t
  | ONextLevel => nextLevel t
  | OSetLevelDuration v => setLevelDuration v t
  | OSetCurrentLevel v => setCurrentLevel v t
  | OSetConfig c => setConfig c t
  | OAddPlayer now newPlayerName => fst (addPlayer now newPlayerName t)
  | OSetChips row v => onRow row (setChips v) t
  | OPurchaseExtraChip row => onRow row purchaseExtraChip t
  | ORebuy row => onRow row rebuy t
  | OAddon row => onRow row addon t
  | OEliminate row => onRow row eliminate t
  | ORemovePlayer row => onRow row removeRow t
  | OAddBlindLevel => addBlindLevel t
  | OAddBreak => addBreak t
  | OUpdateBlind index patch => updateBlind index patch t
  | ORemoveBlind index => removeBlind index t
  end.

Definition run (ops : list Op) (t : Tournament) : Tournament :=
  fold_left (fun t o => apply o t) ops t.

(** The invariant of the data model. *)
Definition clockInvariant (t : Tournament) : Prop :=
  0 <= currentLevelIndex t < blindsLength t /\ 0 <= timeLeft t.

(** The invariant that the operations carry: the data model's, with a level
    duration that is not negative. *)
Definition clockInvariant' (t : Tournament) : Prop :=
  clockInvariant t /\ 0 <= levelDuration t.

(** The assignments that leave the players list alone. *)
Definition keepsPlayers (f : Field) : bool :=
  match f with FPlayers _ => false | _ => true end.

(** A level is removed with the current level kept in range when the
    current index is below the last one. *)
Definition keepsCurrentLevel (o : Op) (t : Tournament) : bool :=
  match o with
  | ORemoveBlind _ => currentLevelIndex t <? blindsLength t - 1
  | _ => true
  end.

(** The states reached from a created tournament by operations that keep
    the current level in range. *)
Inductive reachable : Tournament -> Prop :=
| reachable_new (newId name : string) : reachable (newTournament newId name)
| reachable_op (o : Op) (t : Tournament) :
    reachable t -> keepsCurrentLevel o t = true -> reachable (apply o t).

(** ** Concrete states *)

(** A tournament whose five default levels were all removed, then run down
    to an expired clock: level duration 1 minute, started, 60 ticks. *)
Definition emptiedSchedule : Tournament :=
  run (repeat (ORemoveBlind 0) 5
       ++ [OSetLevelDuration (Some 1); OToggleRunning]
       ++ repeat OTick 60)
      (newTournament "tr_1" "Torneio").

(** The two-level scenario: level duration 10, index 0, 600 seconds left,
    running. *)
Definition twoLevels : list BlindLevel :=
  [ mkBlind 1 25 50 0 None None; mkBlind 2 50 100 0 (Some false) None ].

Definition scenarioStart : Tournament :=
  save [FBlinds twoLevels; FIsRunning true] (newTournament "tr_1" "Torneio").

(** A created tournament whose five levels were removed. *)
Definition noLevels : Tournament :=
  run (repeat (ORemoveBlind 0) 5) (newTournament "tr_1" "Torneio").

(** A created tournament moved to its last level, whose last level was then
    removed. *)
Definition lastLevelRemoved : Tournament :=
  run [OSetCurrentLevel (Some 4); ORemoveBlind 4] (newTournament "tr_1" "Torneio").

(** One player who bought in, rebought once and took one addon, under the
    default settings: buy-in 100, addon 50, fee 10 percent. *)
Definition poolScenario : Tournament :=
  run [OAddPlayer 1700000000000 (js "Ana"); ORebuy 0; OAddon 0]
      (newTournament "tr_1" "Torneio").

(** Three players, the second eliminated. *)
Definition threePlayers : Tournament :=
  run [OAddPlayer 1700000000000 (js "Ana");
       OAddPlayer 1700000000001 (js "Bruno");
       OAddPlayer 1700000000002 (js "Caio");
       ORebuy 1; OEliminate 1]
      (newTournament "tr_1" "Torneio").

(** Two players with one entry each, the first finishing first and the
    second finishing second, under stage weight 1; and the same field
    entered in the other order. *)
Definition rankingScenario : Tournament :=
  run [OAddPlayer 1700000000000 (js "X"); OAddPlayer 1700000000001 (js "Y");
       OEliminate 1; OEliminate 0]
      (newTournament "tr_1" "Torneio").

Definition rankingScenarioSwapped : Tournament :=
  run [OAddPlayer 1700000000001 (js "Y"); OAddPlayer 1700000000000 (js "X");
       OEliminate 0; OEliminate 1]
      (newTournament "tr_1" "Torneio").

Definition playerX : Player :=
  mkPlayer 1700000000000 (js "X") 1 0 0 10000 (Some 1) 0%R false false false.

Definition playerY : Player :=
  mkPlayer 1700000000001 (js "Y") 1 0 0 10000 (Some 2) 0%R false false false.

(** Descending order of the scores. *)
Definition scoreGe (a b : ScoredPlayer) : Prop := (score a >= score b)%R.

(** The invariant of the player ledger. *)
Definition entriesInvariant (p : Player) : Prop := actions p = 1 + rebuys p.

(** A store with two created tournaments, the later one selected. *)
Definition twoTournaments : Store :=
  createTournament "tr_2" "Torneio B" (createTournament "tr_1" "Torneio A" emptyStore).

(** Four players, all active. *)
Definition fourPlayers : Tournament :=
  run [OAddPlayer 1700000000000 (js "A"); OAddPlayer 1700000000001 (js "B");
       OAddPlayer 1700000000002 (js "C"); OAddPlayer 1700000000003 (js "D")]
      (newTournament "tr_1" "Torneio").

(** ** Further invariants *)

(** The bounds that the settings and the clock keep on the time. *)
Definition timeInvariant (t : Tournament) : Prop :=
  1 <= levelDuration t <= 180 /\ 0 <= timeLeft t <= levelDuration t * 60.

(** The controls that write the current level index. *)
Definition setsLevel (o : Op) : bool :=
  match o with
  | OReset | OPreviousLevel | ONextLevel | OSetCurrentLevel _ => true
  | _ => false
  end.

(** What the operations keep true of every player. *)
Definition ledgerInvariant (p : Player) : Prop :=
  prize p = 0%R /\
  0 <= rebuys p /\ 0 <= addons p /\
  (active p = true <-> position p = None) /\
  (forall n, position p = Some n -> 0 <= n) /\
  name p <> [] /\ trim (name p) = name p.

(** An admission is given a timestamp that no current player has. *)
Definition freshId (o : Op) (t : Tournament) : bool :=
  match o with
  | OAddPlayer now _ => negb (existsb (fun p => id p =? now) (players t))
  | _ => true
  end.

(** No white space at the front. *)
Definition noLeadingSpace (s : jsString) : Prop :=
  match s with
  | [] => True
  | c :: _ => isWhiteSpace c = false
  end.

(** ** Derived views of the screens *)

(** [players.slice().sort((a, b) => b.chips - a.chips).slice(0, 6)]: the
    stacks shown by both screens. *)
Definition topStacks (t : Tournament) : list Player :=
  firstn 6 (sort (fun a b => (IZR (chips b) - IZR (chips a))%R) (players t)).

(** The players whose score is [k], as a filter. *)
Definition scoreIs (k : R) (s : ScoredPlayer) : bool :=
  if Req_dec_T (score s) k then true else false.

(** [String(n)] for an integer [n]: the decimal digits, with a minus sign
    for a negative number. *)
Definition toString (n : Z) : jsString :=
  js (NilEmpty.string_of_int (Z.to_int n)).

(** [s.padStart(targetLength, c)] for a one-unit filler [c]. *)
Definition padStart (targetLength : nat) (c : N) (s : jsString) : jsString :=
  repeat c (targetLength - List.length s) ++ s.

(** [formatTime] of both screens: [Math.floor(seconds / 60)] and
    [seconds % 60], each padded to two digits. *)
Definition formatTime (seconds : Z) : jsString :=
  let mins := seconds / 60 in
  let secs := Z.rem seconds 60 in
  padStart 2 48 (toString mins) ++ js ":" ++ padStart 2 48 (toString secs).

(** The code unit of a decimal digit. *)
Definition digit (d : Z) : N := Z.to_N (48 + d).

(** The clock face for a time of at most 180 minutes: two digits of
    minutes, three from 100 minutes on, a colon and two digits of seconds. *)
Definition clockFace (seconds : Z) : jsString :=
  let m := seconds / 60 in
  let r := seconds mod 60 in
  (if m <? 100 then [digit (m / 10); digit (m mod 10)]
   else [digit (m / 100); digit ((m / 10) mod 10); digit (m mod 10)])
  ++ [58%N; digit (r / 10); digit (r mod 10)].

Fixpoint jsString_eqb (a b : jsString) : bool :=
  match a, b with
  | [], [] => true
  | x :: a', y :: b' => (x =? y)%N && jsString_eqb a' b'
  | _, _ => false
  end.

(** ** The store as the application uses it *)

Module App.

(** [save] of [PokerTournamentManagerApp]: the patch is merged over the
    active tournament, and the result replaces every tournament that has
    its id; without an active tournament nothing happens. *)
Definition save (patch : Patch) (s : Store) : Store :=
  match activeTournament s with
  | None => s
  | Some active =>
      let updated := fold_left assign patch active in
      mkStore (map (fun t => if String.eqb (tid t) (tid active) then updated else t)
                   (tournaments s))
              (activeTournamentId s)
  end.

End App.

(** ** Prize pool in IEEE doubles

    The reduce of [TVScreen] and [TVScreenPublic] once more, with the
    arithmetic of the language: every number is a binary64 float, every
    operation rounds to nearest, ties to even. *)

Module Double.

Import PrimFloat.
Local Open Scope float_scope.

(** A whole number as a double.  The conversion is exact for the whole
    numbers below 2^53, which the counters are. *)
Definition number (z : Z) : float :=
  if (z <? 0)%Z then - of_uint63 (Uint63.of_Z (- z))
  else of_uint63 (Uint63.of_Z z).

(** The settings that the prize pool reads. *)
Record Settings := mkSettings {
  buyInValue : float;
  addonValue : float;
  extraChipValue : float;
  adminFeePercent : float
}.

Definition totalPrizePool (c : Settings) (ps : list Player) : float :=
  fold_left (fun s p =>
    let actionsTotal := number (actions p) * buyInValue c in
    let addonsTotal := number (addons p) * addonValue c in
    let extraChipTotal := if hasExtraChip p then extraChipValue c else 0 in
    let total := actionsTotal + addonsTotal + extraChipTotal in
    let afterFee := total * (1 - adminFeePercent c / 100) in
    s + afterFee) ps 0.

(** The value [afterFee] of the reduce for a player with the given entries,
    addons and extra chip, and for a player. *)
Definition contribution (c : Settings) (entries addonCount : Z) (extraChip : bool)
  : float :=
  (number entries * buyInValue c + number addonCount * addonValue c
   + (if extraChip then extraChipValue c else 0))
  * (1 - adminFeePercent c / 100).

Definition netContribution (c : Settings) (p : Player) : float :=
  contribution c (actions p) (addons p) (hasExtraChip p).

(** The sum the reduce takes: from 0, in list order. *)
Definition sumFromZero (terms : list float) : float :=
  fold_left add terms 0.

End Double.

(** Buy-in 35, addon 50, extra chip 20, fee 12 percent; two players with one
    entry and one player with three entries and an addon, in two orders. *)
Definition orderSettings : Double.Settings :=
  Double.mkSettings (Double.number 35) (Double.number 50) (Double.number 20)
                    (Double.number 12).

Definition orderPlayers : list Player :=
  players (run [OAddPlayer 1700000000000 (js "Ana");
                OAddPlayer 1700000000001 (js "Bruno");
                OAddPlayer 1700000000002 (js "Caio");
                ORebuy 2; ORebuy 2; OAddon 2]
               (newTournament "tr_1" "Torneio")).

Definition orderPlayersSwapped : list Player :=
  match orderPlayers with
  | a :: b :: c :: ps => a :: c :: b :: ps
  | ps => ps
  end.

(** Four players of whom the first two are out, at positions 4 and 3; the
    other two are still in the game. *)
Definition twoOut : Tournament :=
  run [OEliminate 0; OEliminate 1] fourPlayers.

(** * Theorems *)

(** ** Clock *)

Lemma clamp_spec (v a b : Z) : clamp v a b = Z.max a (Z.min v b).
Proof. unfold clamp. now rewrite Z.min_comm. Qed.

Lemma clamp_bounds (v a b : Z) : a <= b -> a <= clamp v a b <= b.
Proof. unfold clamp. lia. Qed.

(** C1 (as amended).  On a running tournament a tick with time left takes
    one second off [timeLeft] and leaves every other field as it was; a tick
    with [timeLeft = 0] moves [currentLevelIndex] to
    [clamp (currentLevelIndex + 1) 0 (blinds.length - 1)], puts
    [levelDuration * 60] in [timeLeft], stops the clock exactly when the new
    index is [blinds.length - 1], and leaves every other field as it was.
    The new index is [min (currentLevelIndex + 1) (blinds.length - 1)]
    whenever the schedule is not empty and the index is at least -1. *)
Theorem tick_running (t : Tournament) :
  isRunning t = true ->
  (0 < timeLeft t ->
   tick t =
   mkTournament (tid t) (tname t) (players t) (blinds t) (levelDuration t)
     (currentLevelIndex t) (timeLeft t - 1) (isRunning t)
     (stageWeight t) (buyInValue t) (buyInChips t) (rebuyValue t)
     (rebuyChips t) (addonValue t) (addonChips t) (adminFeePercent t)
     (timeChipEnabled t) (timeChipValue t) (extraChipEnabled t)
     (extraChipValue t) (extraChipAmount t))
  /\
  (timeLeft t = 0 ->
   let next := Z.max 0 (Z.min (currentLevelIndex t + 1) (blindsLength t - 1)) in
   tick t =
   mkTournament (tid t) (tname t) (players t) (blinds t) (levelDuration t)
     next (levelDuration t * 60)
     (if next =? blindsLength t - 1 then false else isRunning t)
     (stageWeight t) (buyInValue t) (buyInChips t) (rebuyValue t)
     (rebuyChips t) (addonValue t) (addonChips t) (adminFeePercent t)
     (timeChipEnabled t) (timeChipValue t) (extraChipEnabled t)
     (extraChipValue t) (extraChipAmount t)
   /\ (isRunning (tick t) = false <-> next = blindsLength t - 1)
   /\ (next <> blindsLength t - 1 -> isRunning (tick t) = isRunning t)
   /\ (blinds t <> [] -> -1 <= currentLevelIndex t ->
       next = Z.min (currentLevelIndex t + 1) (blindsLength t - 1))).
Proof.
  intros Hrun. split.
  - intros Hpos. unfold tick, timerEffect.
    replace (isRunning t && (timeLeft t >? 0)) with true
      by (rewrite Hrun; symmetry; apply Z.gtb_lt; lia).
    destruct t; reflexivity.
  - intros Hzero next.
    assert (Htick : tick t =
      mkTournament (tid t) (tname t) (players t) (blinds t) (levelDuration t)
        next (levelDuration t * 60)
        (if next =? blindsLength t - 1 then false else isRunning t)
        (stageWeight t) (buyInValue t) (buyInChips t) (rebuyValue t)
        (rebuyChips t) (addonValue t) (addonChips t) (adminFeePercent t)
        (timeChipEnabled t) (timeChipValue t) (extraChipEnabled t)
        (extraChipValue t) (extraChipAmount t)).
    { unfold tick, timerEffect. rewrite Hzero.
      replace (isRunning t && (0 >? 0)) with false
        by (rewrite Hrun; reflexivity).
      replace (isRunning t && (0 =? 0)) with true
        by (rewrite Hrun; reflexivity).
      rewrite clamp_spec. fold next. destruct t; reflexivity. }
    split; [exact Htick|]. rewrite Htick. cbn [isRunning]. rewrite Hrun.
    split; [|split].
    + destruct (Z.eqb_spec next (blindsLength t - 1)); split; congruence.
    + intros Hne. destruct (Z.eqb_spec next (blindsLength t - 1)); congruence.
    + intros Hne Hidx. subst next. unfold blindsLength.
      destruct (blinds t); [congruence|]. cbn [List.length]. lia.
Qed.

Lemma tick_running_witness :
  isRunning scenarioStart = true /\
  timeLeft (tick scenarioStart) = 599 /\
  currentLevelIndex (tick (ticks 600 scenarioStart)) = 1.
Proof.
  assert (Hrun : isRunning scenarioStart = true) by reflexivity.
  assert (Hrun' : isRunning (ticks 600 scenarioStart) = true) by (vm_compute; reflexivity).
  split; [exact Hrun|]. split.
  - rewrite (proj1 (tick_running scenarioStart Hrun)); [reflexivity | vm_compute; reflexivity].
  - destruct (proj2 (tick_running (ticks 600 scenarioStart) Hrun')) as [H _].
    + vm_compute; reflexivity.
    + rewrite H. vm_compute. reflexivity.
Defined.

(** C1 fails as stated on a running tournament with an expired clock whose
    schedule was emptied: the tick leaves the index at 0, which is not
    [min (0 + 1) (0 - 1) = -1], and the clock keeps running although the
    claimed index would equal [blinds.length - 1]. *)
Lemma tick_empty_schedule_counterexample :
  isRunning emptiedSchedule = true /\
  timeLeft emptiedSchedule = 0 /\
  blinds emptiedSchedule = [] /\
  currentLevelIndex emptiedSchedule = 0 /\
  currentLevelIndex (tick emptiedSchedule) = 0 /\
  Z.min (currentLevelIndex emptiedSchedule + 1) (blindsLength emptiedSchedule - 1) = -1 /\
  currentLevelIndex (tick emptiedSchedule)
    <> Z.min (currentLevelIndex emptiedSchedule + 1) (blindsLength emptiedSchedule - 1) /\
  isRunning (tick emptiedSchedule) = true.
Proof.
  repeat split; try (vm_compute; reflexivity).
  vm_compute. discriminate.
Qed.

(** C9 (as amended).  In the two-level scenario the 600 ticks from
    [timeLeft = 600] are the 600 decrements: the tick from [timeLeft = 1]
    gives [timeLeft = 0] with the clock still running at index 0.  The level
    advance is the update after them, which the timer effect issues at once
    rather than through the one-second interval: after 601 ticks the index
    is 1, [timeLeft] is 600 and the clock is stopped, all else as at the
    start. *)
Theorem scenario_two_levels :
  timeLeft (ticks 599 scenarioStart) = 1 /\
  isRunning (ticks 599 scenarioStart) = true /\
  ticks 600 scenarioStart = save [FTimeLeft 0] scenarioStart /\
  currentLevelIndex (ticks 600 scenarioStart) = 0 /\
  isRunning (ticks 600 scenarioStart) = true /\
  timerEffect (ticks 600 scenarioStart)
    = AtOnce [FCurrentLevelIndex 1; FTimeLeft 600; FIsRunning false] /\
  ticks 601 scenarioStart
    = save [FCurrentLevelIndex 1; FTimeLeft 600; FIsRunning false] scenarioStart /\
  currentLevelIndex (ticks 601 scenarioStart) = 1 /\
  timeLeft (ticks 601 scenarioStart) = 600 /\
  isRunning (ticks 601 scenarioStart) = false.
Proof.
  repeat split; vm_compute; reflexivity.
Qed.

(** C9 fails as stated: after exactly 600 ticks the scenario is at index 0
    with no time left and the clock running, not at index 1 with 600 seconds
    and the clock stopped. *)
Lemma scenario_600_ticks_counterexample :
  blinds scenarioStart = twoLevels /\
  levelDuration scenarioStart = 10 /\
  currentLevelIndex scenarioStart = 0 /\
  timeLeft scenarioStart = 600 /\
  isRunning scenarioStart = true /\
  ~ (currentLevelIndex (ticks 600 scenarioStart) = 1 /\
     timeLeft (ticks 600 scenarioStart) = 600 /\
     isRunning (ticks 600 scenarioStart) = false).
Proof.
  repeat split; try reflexivity.
  intros [H _]. vm_compute in H. discriminate.
Qed.

(** ** The clock invariant *)

Ltac unfold_ops :=
  unfold tick, timerEffect, timerPatch, toggleRunning, reset, previousLevel,
    nextLevel, jumpLevel, setLevelDuration, setCurrentLevel, setConfig,
    addPlayer, setChips, purchaseExtraChip, rebuy, addon, eliminate, removeRow,
    updatePlayer, removePlayer, addBlindLevel, addBreak, updateBlind,
    removeBlind, save, blindsLength in *.

Lemma mapi_length {A B : Type} (f : A -> nat -> B) (l : list A) (i : nat) :
  List.length (mapi f i l) = List.length l.
Proof.
  revert i. induction l as [|x l IH]; intros i; cbn; [reflexivity|].
  now rewrite IH.
Qed.

Lemma filteri_above {A : Type} (index : nat) (l : list A) (i : nat) :
  (index < i)%nat ->
  filteri (fun _ j => negb (Nat.eqb j index)) i l = l.
Proof.
  revert i. induction l as [|x l IH]; intros i Hlt; cbn; [reflexivity|].
  destruct (Nat.eqb_spec i index); [lia|]. cbn. rewrite IH by lia. reflexivity.
Qed.

Lemma filteri_length {A : Type} (index : nat) (l : list A) (i : nat) :
  (List.length l <= S (List.length (filteri (fun _ j => negb (Nat.eqb j index)) i l)))%nat.
Proof.
  revert i. induction l as [|x l IH]; intros i; cbn; [lia|].
  destruct (Nat.eqb_spec i index); cbn.
  - rewrite filteri_above by lia. lia.
  - specialize (IH (S i)). lia.
Qed.

Ltac proj_t :=
  cbn [fold_left assign fst tid tname players blinds levelDuration
       currentLevelIndex timeLeft isRunning configPatch] in *.

Lemma apply_clockInvariant' (o : Op) (t : Tournament) :
  clockInvariant' t -> keepsCurrentLevel o t = true -> clockInvariant' (apply o t).
Proof.
  unfold clockInvariant', clockInvariant, blindsLength.
  intros [[Hidx Htime] Hdur] Hkeep.
  destruct o; cbn [apply keepsCurrentLevel] in *; unfold onRow;
    try (destruct (nth_error (players t) row); [|tauto]); unfold_ops.
  - (* tick *)
    destruct (isRunning t); cbn [andb].
    + destruct (Z.gtb_spec (timeLeft t) 0).
      * destruct t; proj_t. lia.
      * destruct (Z.eqb_spec (timeLeft t) 0).
        -- pose proof (clamp_bounds (currentLevelIndex t + 1) 0
                         (Z.of_nat (List.length (blinds t)) - 1)).
           destruct t; proj_t. lia.
        -- destruct t; proj_t. lia.
    + destruct t; proj_t. lia.
  - destruct t; proj_t. lia.
  - destruct t; proj_t. lia.
  - pose proof (clamp_bounds (currentLevelIndex t + -1) 0
                  (Z.of_nat (List.length (blinds t)) - 1)).
    destruct t; proj_t. lia.
  - pose proof (clamp_bounds (currentLevelIndex t + 1) 0
                  (Z.of_nat (List.length (blinds t)) - 1)).
    destruct t; proj_t. lia.
  - pose proof (clamp_bounds (orZ v 1) 1 180).
    destruct t; proj_t. lia.
  - pose proof (clamp_bounds (orZ v 0) 0
                  (Z.of_nat (List.length (blinds t)) - 1)).
    destruct t; proj_t. lia.
  - destruct c; destruct t; proj_t; lia.
  - destruct (negb (truthy (trim newPlayerName))); destruct t; proj_t; lia.
  - destruct t; proj_t; lia.
  - destruct (extraChipEnabled t && negb (hasExtraChip p)); destruct t; proj_t; lia.
  - destruct t; proj_t; lia.
  - destruct t; proj_t; lia.
  - destruct t; proj_t; lia.
  - destruct t; proj_t; lia.
  - destruct t; proj_t. rewrite length_app. cbn [List.length]. lia.
  - destruct t; proj_t. rewrite length_app. cbn [List.length]. lia.
  - destruct t; proj_t. rewrite mapi_length. lia.
  - apply Z.ltb_lt in Hkeep.
    pose proof (filteri_length index (blinds t) 0).
    destruct t; proj_t. lia.
Qed.

(** C2 (as amended).  Every tournament state reached from creation through
    ticks, start and pause, reset, level jumps, settings, player-ledger
    operations and blind-schedule edits satisfies
    [0 <= currentLevelIndex < blinds.length] and [0 <= timeLeft], provided a
    blind level is removed only while the current index is below the last
    index of the schedule. *)
Theorem reachable_clockInvariant (t : Tournament) :
  reachable t -> clockInvariant t.
Proof.
  intros Hreach. enough (clockInvariant' t) as [H _] by exact H.
  induction Hreach as [newId name | o t Hreach IH Hkeep].
  - unfold clockInvariant', clockInvariant, blindsLength. cbn. lia.
  - now apply apply_clockInvariant'.
Qed.

Lemma reachable_clockInvariant_witness :
  clockInvariant
    (apply (ORemoveBlind 0)
       (apply ONextLevel
          (apply (OAddPlayer 1700000000000 (js "Ana"))
             (newTournament "tr_1" "Torneio")))).
Proof.
  apply reachable_clockInvariant.
  apply reachable_op; [|vm_compute; reflexivity].
  apply reachable_op; [|reflexivity].
  apply reachable_op; [|reflexivity].
  apply reachable_new.
Defined.

(** C2 fails as stated: removing the five default levels of a created
    tournament leaves an empty schedule with the current index 0, and
    removing the last level while it is the current one leaves the index one
    past the end; in both states the level shown is the placeholder. *)
Lemma remove_blind_counterexample :
  blinds noLevels = [] /\
  currentLevelIndex noLevels = 0 /\
  ~ clockInvariant noLevels /\
  currentLevelIndex lastLevelRemoved = 4 /\
  blindsLength lastLevelRemoved = 4 /\
  ~ clockInvariant lastLevelRemoved /\
  currentLevel noLevels = mkBlind 0 0 0 0 (Some false) None /\
  currentLevel lastLevelRemoved = mkBlind 0 0 0 0 (Some false) None.
Proof.
  repeat split; try (vm_compute; reflexivity).
  - unfold clockInvariant. intros [[_ H] _]. vm_compute in H. discriminate.
  - unfold clockInvariant. intros [[_ H] _]. vm_compute in H. discriminate.
Qed.

(** ** Prize pool *)

Section PrizePool.

Local Open Scope R_scope.

Lemma fold_left_sumOver {A : Type} (f : A -> R) (l : list A) (s : R) :
  fold_left (fun s x => s + f x) l s = s + sumOver f l.
Proof.
  revert s. induction l as [|x l IH]; intros s; cbn.
  - ring.
  - rewrite IH. ring.
Qed.

Lemma totalPrizePool_sumOver (t : Tournament) :
  totalPrizePool t = sumOver (netContribution t) (players t).
Proof.
  unfold totalPrizePool.
  change (fold_left (fun s p => s + netContribution t p) (players t) 0
          = sumOver (netContribution t) (players t)).
  rewrite fold_left_sumOver. ring.
Qed.

Lemma sumOver_Permutation {A : Type} (f : A -> R) (l l' : list A) :
  Permutation l l' -> sumOver f l = sumOver f l'.
Proof.
  induction 1 as [|x l l' _ IH|x y l|l l' l'' _ IH1 _ IH2]; cbn.
  - reflexivity.
  - now rewrite IH.
  - ring.
  - now rewrite IH1.
Qed.

Lemma sumOver_ext {A : Type} (f g : A -> R) (l : list A) :
  (forall x, In x l -> f x = g x) -> sumOver f l = sumOver g l.
Proof.
  induction l as [|x l IH]; intros H; cbn; [reflexivity|].
  rewrite (H x) by (left; reflexivity).
  rewrite IH by (intros y Hy; apply H; right; exact Hy). reflexivity.
Qed.

Lemma sumOver_map {A B : Type} (f : B -> R) (g : A -> B) (l : list A) :
  sumOver f (map g l) = sumOver (fun x => f (g x)) l.
Proof.
  induction l as [|x l IH]; cbn; [reflexivity|]. now rewrite IH.
Qed.

Lemma sumOver_plus {A : Type} (f g : A -> R) (l : list A) :
  sumOver (fun x => f x + g x) l = sumOver f l + sumOver g l.
Proof.
  induction l as [|x l IH]; cbn; [ring|]. rewrite IH. ring.
Qed.

Lemma sumOver_scale {A : Type} (f : A -> R) (k : R) (l : list A) :
  sumOver (fun x => f x * k) l = sumOver f l * k.
Proof.
  induction l as [|x l IH]; cbn; [ring|]. rewrite IH. ring.
Qed.

Lemma players_poolScenario :
  players poolScenario
  = [mkPlayer 1700000000000 (js "Ana") 2 1 1 25000 None 0 true false false].
Proof. vm_compute. reflexivity. Qed.

(** C3.  The prize pool of both screens is the sum over all players of
    [(actions * buyInValue + addons * addonValue
      + (hasExtraChip ? extraChipValue : 0)) * (1 - adminFeePercent / 100)];
    no term depends on [active], and eliminating a player leaves the pool as
    it was.  With buy-in 100, fee 10 and addon 50, one player with two
    entries and one addon gives 225. *)
Theorem prize_pool_sum :
  (forall t : Tournament,
      totalPrizePool t = prizePoolSpec t /\
      TVScreenPublic.totalPrizePool t = prizePoolSpec t) /\
  (forall (t : Tournament) (p : Player),
      totalPrizePool (eliminate p t) = totalPrizePool t) /\
  (buyInValue poolScenario = 100 /\ adminFeePercent poolScenario = 10 /\
   addonValue poolScenario = 50 /\
   map (fun p => (actions p, addons p, hasExtraChip p)) (players poolScenario)
     = [(2, 1, false)]%Z /\
   totalPrizePool poolScenario = 225).
Proof.
  split; [|split].
  - intros t. split; [apply totalPrizePool_sumOver|].
    change (TVScreenPublic.totalPrizePool t) with (totalPrizePool t).
    apply totalPrizePool_sumOver.
  - intros t p. rewrite !totalPrizePool_sumOver.
    unfold eliminate, updatePlayer, save. destruct t. cbn [fold_left assign players].
    rewrite sumOver_map. apply sumOver_ext. intros q _.
    destruct (id q =? id p)%Z; [|reflexivity].
    destruct q. reflexivity.
  - split; [reflexivity|]. split; [reflexivity|]. split; [reflexivity|].
    split; [rewrite players_poolScenario; reflexivity|].
    rewrite totalPrizePool_sumOver, players_poolScenario.
    unfold netContribution, grossContribution. cbn. lra.
Qed.

Lemma prizePoolSpec_Permutation (t : Tournament) (ps : list Player) :
  Permutation (players t) ps ->
  prizePoolSpec (save [FPlayers ps] t) = prizePoolSpec t.
Proof.
  intros Hperm. unfold prizePoolSpec.
  destruct t. cbn [save fold_left assign players] in *.
  symmetry. apply (sumOver_Permutation _ _ _ Hperm).
Qed.

Lemma prizePoolSpec_linear (t : Tournament) (b : R) :
  prizePoolSpec (save [FBuyInValue b] t)
  = sumOver (fun p => IZR (actions p)) (players t)
    * (1 - adminFeePercent t / 100) * b
    + sumOver (fun p => IZR (addons p) * addonValue t
                        + (if hasExtraChip p then extraChipValue t else 0))
              (players t)
      * (1 - adminFeePercent t / 100).
Proof.
  unfold prizePoolSpec.
  destruct t. cbn [save fold_left assign players adminFeePercent addonValue
                   extraChipValue].
  set (k := 1 - adminFeePercent0 / 100).
  transitivity
    (sumOver (fun p => IZR (actions p) * (k * b)
                       + (IZR (addons p) * addonValue0
                          + (if hasExtraChip p then extraChipValue0 else 0)) * k)
             players0).
  - apply sumOver_ext. intros p _.
    unfold netContribution, grossContribution.
    cbn [buyInValue addonValue extraChipValue adminFeePercent]. fold k. ring.
  - rewrite sumOver_plus, !sumOver_scale. ring.
Qed.

End PrizePool.

(** ** Prize pool: the order of the players *)

Lemma Double_pool_terms (c : Double.Settings) (ps : list Player) :
  Double.totalPrizePool c ps
  = Double.sumFromZero (map (Double.netContribution c) ps).
Proof.
  unfold Double.totalPrizePool, Double.sumFromZero.
  assert (H : forall s : PrimFloat.float,
             fold_left (fun s p => PrimFloat.add s (Double.netContribution c p)) ps s
             = fold_left PrimFloat.add (map (Double.netContribution c) ps) s).
  { induction ps as [|p ps IH]; intros s; cbn [fold_left map];
      [reflexivity | apply IH]. }
  exact (H PrimFloat.zero).
Qed.

Lemma Prim2SF_eq (x y : PrimFloat.float) :
  FloatOps.Prim2SF x = FloatOps.Prim2SF y -> x = y.
Proof.
  intros H. rewrite <- (FloatAxioms.SF2Prim_Prim2SF x),
              <- (FloatAxioms.SF2Prim_Prim2SF y).
  now rewrite H.
Qed.

(** The first two terms of a sum from 0 can be exchanged: the sum of two
    doubles does not depend on their order, and adding to 0 changes a term
    only from -0 to 0. *)
Lemma zero_add_add (a b : PrimFloat.float) :
  PrimFloat.add (PrimFloat.add PrimFloat.zero a) b
  = PrimFloat.add (PrimFloat.add PrimFloat.zero b) a.
Proof.
  apply Prim2SF_eq. rewrite !FloatAxioms.add_spec. unfold FloatAxioms.SF64add.
  change (FloatOps.Prim2SF PrimFloat.zero) with (SpecFloat.S754_zero false).
  destruct (FloatOps.Prim2SF a) as [sa|sa| |sa ma ea],
           (FloatOps.Prim2SF b) as [sb|sb| |sb mb eb];
    try reflexivity; try (destruct sa; reflexivity);
    try (destruct sb; reflexivity); try (destruct sa, sb; reflexivity).
  unfold SpecFloat.SFadd. rewrite Z.min_comm, Z.add_comm. reflexivity.
Qed.

Lemma Double_pool_front (c : Double.Settings) (p q : Player) (ps : list Player) :
  Double.totalPrizePool c (p :: q :: ps) = Double.totalPrizePool c (q :: p :: ps).
Proof.
  rewrite !Double_pool_terms. unfold Double.sumFromZero. cbn [map fold_left].
  now rewrite zero_add_add.
Qed.

(** C8 (as amended).  The prize pool of the code is the sum of the players'
    net contributions taken from 0, in list order, in IEEE double
    arithmetic.  A permutation of the players list permutes these terms and
    changes none of them; exchanging the first two players leaves the pool
    as it is, and so does every permutation of at most two players.  The
    same sum taken in exact arithmetic does not change under any permutation
    of the players list, and as a function of [buyInValue], all else fixed,
    it is [slope * buyInValue + intercept] with
    [slope = (sum of actions) * (1 - adminFeePercent / 100)] and
    [intercept = (sum of addons * addonValue + extra chip values)
                 * (1 - adminFeePercent / 100)]. *)
Theorem prize_pool_order :
  (forall (c : Double.Settings) (ps : list Player),
      Double.totalPrizePool c ps
      = Double.sumFromZero (map (Double.netContribution c) ps)) /\
  (forall (c : Double.Settings) (ps ps' : list Player),
      Permutation ps ps' ->
      Permutation (map (Double.netContribution c) ps)
                  (map (Double.netContribution c) ps')) /\
  (forall (c : Double.Settings) (p q : Player) (ps : list Player),
      Double.totalPrizePool c (p :: q :: ps)
      = Double.totalPrizePool c (q :: p :: ps)) /\
  (forall (c : Double.Settings) (ps ps' : list Player),
      Permutation ps ps' -> (List.length ps <= 2)%nat ->
      Double.totalPrizePool c ps' = Double.totalPrizePool c ps) /\
  (forall (t : Tournament) (ps : list Player),
      Permutation (players t) ps ->
      prizePoolSpec (save [FPlayers ps] t) = prizePoolSpec t) /\
  (forall t : Tournament,
      let slope :=
        (sumOver (fun p => IZR (actions p)) (players t)
         * (1 - adminFeePercent t / 100))%R in
      let intercept :=
        (sumOver (fun p => IZR (addons p) * addonValue t
                           + (if hasExtraChip p then extraChipValue t else 0))
                 (players t)
         * (1 - adminFeePercent t / 100))%R in
      forall b : R,
        prizePoolSpec (save [FBuyInValue b] t) = (slope * b + intercept)%R).
Proof.
  split; [exact Double_pool_terms|].
  split; [intros c ps ps' H; now apply Permutation_map|].
  split; [exact Double_pool_front|].
  split; [|split; [exact prizePoolSpec_Permutation
                  | intros t slope intercept b; apply prizePoolSpec_linear]].
  intros c ps ps' Hperm Hlen.
  destruct ps as [|p [|q [|r ps]]]; cbn in Hlen; try lia.
  - apply Permutation_nil in Hperm. now subst.
  - apply Permutation_length_1_inv in Hperm. now subst.
  - apply Permutation_length_2_inv in Hperm as [->| ->];
      [reflexivity | apply Double_pool_front].
Qed.

Lemma prize_pool_order_witness :
  Permutation (map (Double.netContribution orderSettings) orderPlayers)
              (map (Double.netContribution orderSettings) orderPlayersSwapped) /\
  Double.totalPrizePool orderSettings (rev (firstn 2 orderPlayers))
    = Double.totalPrizePool orderSettings (firstn 2 orderPlayers) /\
  prizePoolSpec
    (save [FPlayers (match players threePlayers with
                     | p :: q :: ps => q :: p :: ps
                     | ps => ps
                     end)] threePlayers)
  = prizePoolSpec threePlayers.
Proof.
  assert (Hplayers : orderPlayers
    = [mkPlayer 1700000000000 (js "Ana") 1 0 0 10000 None 0%R true false false;
       mkPlayer 1700000000001 (js "Bruno") 1 0 0 10000 None 0%R true false false;
       mkPlayer 1700000000002 (js "Caio") 3 2 1 35000 None 0%R true false false])
    by (vm_compute; reflexivity).
  split; [|split].
  - apply (proj1 (proj2 prize_pool_order)).
    unfold orderPlayersSwapped. rewrite Hplayers. apply perm_skip, perm_swap.
  - apply (proj1 (proj2 (proj2 (proj2 prize_pool_order)))).
    + rewrite Hplayers. cbn [firstn rev app]. apply perm_swap.
    + rewrite Hplayers. cbn [firstn List.length]. lia.
  - apply (proj1 (proj2 (proj2 (proj2 (proj2 prize_pool_order))))).
    replace (players threePlayers) with
      [mkPlayer 1700000000000 (js "Ana") 1 0 0 10000 None 0%R true false false;
       mkPlayer 1700000000001 (js "Bruno") 2 1 0 20000 (Some 3%Z) 0%R false false false;
       mkPlayer 1700000000002 (js "Caio") 1 0 0 10000 None 0%R true false false]
      by (vm_compute; reflexivity).
    apply perm_swap.
Defined.

(** C8 fails as stated on the code: with buy-in 35, addon 50 and a fee of 12
    percent, two players with one entry and one with three entries and an
    addon give a pool of 198 in the order in which they were admitted and of
    the next double above 198 when the last two are exchanged. *)
Lemma prize_pool_permutation_counterexample :
  Permutation orderPlayers orderPlayersSwapped /\
  map (fun p => (actions p, addons p, hasExtraChip p)) orderPlayers
    = [(1, 0, false); (1, 0, false); (3, 1, false)] /\
  map (fun p => (actions p, addons p, hasExtraChip p)) orderPlayersSwapped
    = [(1, 0, false); (3, 1, false); (1, 0, false)] /\
  Double.totalPrizePool orderSettings orderPlayers = Double.number 198 /\
  Double.totalPrizePool orderSettings orderPlayersSwapped
    = PrimFloat.next_up (Double.number 198) /\
  Double.totalPrizePool orderSettings orderPlayersSwapped
    <> Double.totalPrizePool orderSettings orderPlayers.
Proof.
  assert (Hplayers : orderPlayers
    = [mkPlayer 1700000000000 (js "Ana") 1 0 0 10000 None 0%R true false false;
       mkPlayer 1700000000001 (js "Bruno") 1 0 0 10000 None 0%R true false false;
       mkPlayer 1700000000002 (js "Caio") 3 2 1 35000 None 0%R true false false])
    by (vm_compute; reflexivity).
  split; [|split; [|split; [|split; [|split]]]].
  - unfold orderPlayersSwapped. rewrite Hplayers. apply perm_skip, perm_swap.
  - rewrite Hplayers. reflexivity.
  - unfold orderPlayersSwapped. rewrite Hplayers. reflexivity.
  - rewrite Hplayers. vm_compute. reflexivity.
  - unfold orderPlayersSwapped. rewrite Hplayers. vm_compute. reflexivity.
  - intros H.
    apply (f_equal (fun x => PrimFloat.ltb
                               (Double.totalPrizePool orderSettings orderPlayers) x))
      in H.
    unfold orderPlayersSwapped in H. rewrite Hplayers in H.
    vm_compute in H. discriminate.
Qed.

(** ** Ranking *)

Section Sorting.

Local Open Scope R_scope.

Context {A : Type} (key : A -> R).

Lemma sortInsert_Permutation (x : A) (l : list A) :
  Permutation (x :: l) (sortInsert (fun a b : A => key b - key a) x l).
Proof.
  induction l as [|y l IH]; cbn.
  - apply Permutation_refl.
  - destruct (Rlt_dec 0 ((fun a b : A => key b - key a) x y)).
    + eapply perm_trans; [apply perm_swap|]. now apply perm_skip.
    + apply Permutation_refl.
Qed.

Lemma sort_Permutation (l : list A) :
  Permutation l (sort (fun a b : A => key b - key a) l).
Proof.
  induction l as [|x l IH]; cbn.
  - apply perm_nil.
  - eapply perm_trans; [apply perm_skip, IH|]. apply sortInsert_Permutation.
Qed.

Lemma sortInsert_StronglySorted (x : A) (l : list A) :
  StronglySorted (fun a b => key a >= key b) l ->
  StronglySorted (fun a b => key a >= key b) (sortInsert (fun a b : A => key b - key a) x l).
Proof.
  induction l as [|y l IH]; intros Hs; cbn.
  - constructor; constructor.
  - inversion Hs as [|? ? Hl Hy]; subst.
    destruct (Rlt_dec 0 ((fun a b : A => key b - key a) x y)) as [Hlt|Hge];
      cbn beta in *.
    + constructor; [now apply IH|].
      apply (Permutation_Forall (sortInsert_Permutation x l)).
      constructor; [lra | exact Hy].
    + constructor; [exact Hs|].
      constructor; [lra|].
      eapply Forall_impl; [|exact Hy]. cbn. intros z Hz. lra.
Qed.

Lemma sort_StronglySorted (l : list A) :
  StronglySorted (fun a b => key a >= key b) (sort (fun a b : A => key b - key a) l).
Proof.
  induction l as [|x l IH]; cbn.
  - constructor.
  - now apply sortInsert_StronglySorted.
Qed.

End Sorting.

Section Ranking.

Local Open Scope R_scope.

Lemma calculateRanking_positive (a p : Z) (w : R) :
  (0 < a)%Z -> (0 < p)%Z ->
  calculateRanking a p w = sqrt (IZR a / IZR p * 100) * w.
Proof.
  intros Ha Hp. unfold calculateRanking, Math_pow.
  destruct (Z.leb_spec p 0); [lia|]. destruct (Z.leb_spec a 0); [lia|].
  cbn [orb].
  replace (1 / 2) with (/ 2) by lra.
  rewrite Rpower_sqrt; [reflexivity|].
  apply IZR_lt in Ha, Hp.
  apply Rmult_lt_0_compat; [|lra].
  apply Rdiv_lt_0_compat; assumption.
Qed.

Lemma calculateRanking_zero (a p : Z) (w : R) :
  (a <= 0)%Z \/ (p <= 0)%Z -> calculateRanking a p w = 0.
Proof.
  intros H. unfold calculateRanking.
  destruct (Z.leb_spec p 0); [reflexivity|].
  destruct (Z.leb_spec a 0); [reflexivity|]. lia.
Qed.

Lemma sqrt_100 : sqrt 100 = 10.
Proof. replace 100 with (10 * 10) by lra. apply sqrt_square. lra. Qed.

Lemma sqrt_50_lt_10 : sqrt 50 < 10.
Proof. rewrite <- sqrt_100. apply sqrt_lt_1; lra. Qed.

Lemma players_rankingScenario : players rankingScenario = [playerX; playerY].
Proof. vm_compute. reflexivity. Qed.

Lemma players_rankingScenarioSwapped :
  players rankingScenarioSwapped = [playerY; playerX].
Proof. vm_compute. reflexivity. Qed.

Lemma score_playerX (t : Tournament) :
  stageWeight t = 1 -> score (scored t playerX) = 10.
Proof.
  intros Hw. unfold scored. cbn [score]. rewrite calculateRanking_positive.
  - rewrite Hw. cbn [effectivePosition position playerX actions].
    replace (1 / 1 * 100) with 100 by lra. rewrite sqrt_100. lra.
  - reflexivity.
  - reflexivity.
Qed.

Lemma score_playerY (t : Tournament) :
  stageWeight t = 1 -> score (scored t playerY) = sqrt 50.
Proof.
  intros Hw. unfold scored. cbn [score]. rewrite calculateRanking_positive.
  - rewrite Hw. cbn [effectivePosition position playerY actions].
    replace (1 / 2 * 100) with 50 by lra. lra.
  - reflexivity.
  - reflexivity.
Qed.

(** C4.  A player's ranking score is
    [sqrt (actions / effectivePosition * 100) * stageWeight], where the
    effective position is the recorded position if there is one and the
    number of players otherwise, and it is 0 when [actions <= 0] or the
    effective position is [<= 0].  The ranking holds exactly the scored
    players, in descending order of score.  Two players with one entry each
    and stage weight 1, at positions 1 and 2, score 10 and [sqrt 50] and are
    ranked in that order, whichever way they were entered.  Of four players
    with one entry each, the first two out at positions 4 and 3 and two
    still in the game, the two in the game are scored at position 4, the
    number of players: the scores are 5 for them and for the first out and
    [sqrt (1 / 3 * 100)] for the second out, who is ranked first. *)
Theorem ranking_scores :
  (forall (t : Tournament) (p : Player),
      effectivePosition t p
        = match position p with
          | Some n => n
          | None => Z.of_nat (List.length (players t))
          end /\
      score (scored t p)
        = if ((actions p <=? 0) || (effectivePosition t p <=? 0))%Z then 0
          else sqrt (IZR (actions p) / IZR (effectivePosition t p) * 100)
               * stageWeight t) /\
  (forall t : Tournament,
      Permutation (map (scored t) (players t)) (withScores t) /\
      StronglySorted scoreGe (withScores t)) /\
  (stageWeight rankingScenario = 1 /\
   players rankingScenario = [playerX; playerY] /\
   map player (withScores rankingScenario) = [playerX; playerY] /\
   map score (withScores rankingScenario) = [10; sqrt 50] /\
   players rankingScenarioSwapped = [playerY; playerX] /\
   map player (withScores rankingScenarioSwapped) = [playerX; playerY]) /\
  (stageWeight twoOut = 1 /\
   map (fun p => (name p, actions p, position p, active p)) (players twoOut)
     = [(js "A", 1, Some 4, false); (js "B", 1, Some 3, false);
        (js "C", 1, None, true); (js "D", 1, None, true)]%Z /\
   map (fun s => (name (player s), finalPosition s)) (withScores twoOut)
     = [(js "B", 3); (js "A", 4); (js "C", 4); (js "D", 4)]%Z /\
   map score (withScores twoOut) = [sqrt (1 / 3 * 100); 5; 5; 5]).
Proof.
  split; [|split; [|split]].
  - intros t p. split.
    + unfold effectivePosition, playersLength. destruct (position p); [reflexivity|].
      destruct (active p); reflexivity.
    + unfold scored. cbn [score].
      destruct (Z.leb_spec (actions p) 0) as [Ha|Ha].
      * cbn [orb]. apply calculateRanking_zero. now left.
      * destruct (Z.leb_spec (effectivePosition t p) 0) as [Hp|Hp]; cbn [orb].
        -- apply calculateRanking_zero. now right.
        -- now apply calculateRanking_positive.
  - intros t. unfold withScores. split.
    + apply (sort_Permutation score).
    + apply (sort_StronglySorted score).
  - assert (Hw : stageWeight rankingScenario = 1) by reflexivity.
    assert (Hw' : stageWeight rankingScenarioSwapped = 1) by reflexivity.
    pose proof sqrt_50_lt_10 as Hlt.
    split; [exact Hw|]. split; [exact players_rankingScenario|].
    assert (Hsort : withScores rankingScenario
                    = [scored rankingScenario playerX; scored rankingScenario playerY]).
    { unfold withScores. rewrite players_rankingScenario. cbn [map sort sortInsert].
      rewrite (score_playerX _ Hw), (score_playerY _ Hw).
      destruct (Rlt_dec 0 (sqrt 50 - 10)); [lra | reflexivity]. }
    assert (Hsort' : withScores rankingScenarioSwapped
                     = [scored rankingScenarioSwapped playerX;
                        scored rankingScenarioSwapped playerY]).
    { unfold withScores. rewrite players_rankingScenarioSwapped.
      cbn [map sort sortInsert].
      rewrite (score_playerX _ Hw'), (score_playerY _ Hw').
      destruct (Rlt_dec 0 (10 - sqrt 50)); [reflexivity | lra]. }
    rewrite Hsort, Hsort'. cbn [map player].
    rewrite (score_playerX _ Hw), (score_playerY _ Hw).
    split; [reflexivity|]. split; [reflexivity|].
    split; [exact players_rankingScenarioSwapped | reflexivity].
  - split; [reflexivity|]. split; [vm_compute; reflexivity|].
    assert (H5 : sqrt 25 = 5)
      by (replace 25 with (5 * 5) by lra; apply sqrt_square; lra).
    assert (Hlt : 5 < sqrt (1 / 3 * 100))
      by (rewrite <- H5; apply sqrt_lt_1; lra).
    assert (Hps : players twoOut
      = [mkPlayer 1700000000000 (js "A") 1 0 0 10000 (Some 4%Z) 0 false false false;
         mkPlayer 1700000000001 (js "B") 1 0 0 10000 (Some 3%Z) 0 false false false;
         mkPlayer 1700000000002 (js "C") 1 0 0 10000 None 0 true false false;
         mkPlayer 1700000000003 (js "D") 1 0 0 10000 None 0 true false false])
      by (vm_compute; reflexivity).
    assert (Hscore : forall p,
               actions p = 1%Z ->
               (effectivePosition twoOut p = 4%Z ->
                scored twoOut p = mkScored p 5 4) /\
               (effectivePosition twoOut p = 3%Z ->
                scored twoOut p = mkScored p (sqrt (1 / 3 * 100)) 3)).
    { intros p Ha. unfold scored. rewrite Ha.
      replace (stageWeight twoOut) with 1 by reflexivity.
      split; intros ->; rewrite calculateRanking_positive by lia; f_equal.
      - replace (1 / 4 * 100) with 25 by lra. rewrite H5. lra.
      - lra. }
    assert (Heff : forall p, position p = None -> effectivePosition twoOut p = 4%Z).
    { intros p Hp. unfold effectivePosition, playersLength. rewrite Hp, Hps.
      destruct (active p); reflexivity. }
    pose (pA := mkPlayer 1700000000000 (js "A") 1 0 0 10000 (Some 4%Z) 0
                  false false false).
    pose (pB := mkPlayer 1700000000001 (js "B") 1 0 0 10000 (Some 3%Z) 0
                  false false false).
    pose (pC := mkPlayer 1700000000002 (js "C") 1 0 0 10000 None 0
                  true false false).
    pose (pD := mkPlayer 1700000000003 (js "D") 1 0 0 10000 None 0
                  true false false).
    assert (Hsort : withScores twoOut
      = [mkScored pB (sqrt (1 / 3 * 100)) 3; mkScored pA 5 4;
         mkScored pC 5 4; mkScored pD 5 4]).
    { unfold withScores. rewrite Hps. fold pA pB pC pD. cbn [map].
      rewrite (proj1 (Hscore pA eq_refl) eq_refl).
      rewrite (proj2 (Hscore pB eq_refl) eq_refl).
      rewrite (proj1 (Hscore pC eq_refl) (Heff pC eq_refl)).
      rewrite (proj1 (Hscore pD eq_refl) (Heff pD eq_refl)).
      cbn [sort sortInsert score].
      repeat (match goal with
              | |- context [Rlt_dec ?a ?b] => destruct (Rlt_dec a b); try lra
              end; cbn [sort sortInsert score]).
      reflexivity. }
    rewrite Hsort. split; reflexivity.
Qed.

End Ranking.

(** ** Player ledger *)

Lemma trimStart_nil (s : jsString) :
  trimStart s = [] <-> forallb isWhiteSpace s = true.
Proof.
  induction s as [|c s IH]; cbn.
  - tauto.
  - destruct (isWhiteSpace c); cbn; [exact IH|].
    split; discriminate.
Qed.

Lemma trimStart_head (s : jsString) (c : N) (s' : jsString) :
  trimStart s = c :: s' -> isWhiteSpace c = false.
Proof.
  induction s as [|d s IH]; cbn; [discriminate|].
  destruct (isWhiteSpace d) eqn:Hd; [exact IH|].
  intros H. injection H as -> _. exact Hd.
Qed.

Lemma forallb_rev {A : Type} (f : A -> bool) (l : list A) :
  forallb f (rev l) = forallb f l.
Proof.
  induction l as [|x l IH]; cbn; [reflexivity|].
  rewrite forallb_app, IH. cbn. rewrite andb_true_r. apply andb_comm.
Qed.

(** The trimmed name is empty exactly for the empty and the whitespace-only
    names. *)
Lemma trim_nil (s : jsString) :
  trim s = [] <-> forallb isWhiteSpace s = true.
Proof.
  unfold trim, trimEnd. split.
  - intros H. apply (f_equal (@rev N)) in H. rewrite rev_involutive in H.
    cbn in H. apply trimStart_nil in H. rewrite forallb_rev in H.
    destruct (trimStart s) as [|c s'] eqn:Hs.
    + now apply trimStart_nil.
    + apply trimStart_head in Hs. cbn in H. rewrite Hs in H. discriminate.
  - intros H. apply trimStart_nil in H. rewrite H. reflexivity.
Qed.

Lemma truthy_trim (s : jsString) :
  truthy (trim s) = negb (forallb isWhiteSpace s).
Proof.
  destruct (forallb isWhiteSpace s) eqn:H.
  - apply trim_nil in H. now rewrite H.
  - destruct (trim s) eqn:Ht; [|reflexivity].
    apply trim_nil in Ht. congruence.
Qed.

(** C6.  For an empty or whitespace-only name [addPlayer] changes nothing:
    the tournament and the name input are returned as they were.  For any
    other name it appends one player to the list and changes no other field
    of the tournament; the player has [actions = 1], [rebuys = 0],
    [addons = 0], [active = true], [position = null], [prize = 0], no extra
    chip, and [chips = buyInChips] plus [timeChipValue] exactly when the time
    chip is enabled and the current level index is below 2, with
    [hasTimeChip] telling whether that bonus was given. *)
Theorem addPlayer_spec (now : Z) (newPlayerName : jsString) (t : Tournament) :
  (forallb isWhiteSpace newPlayerName = true ->
   addPlayer now newPlayerName t = (t, newPlayerName)) /\
  (forallb isWhiteSpace newPlayerName = false ->
   let bonus := timeChipEnabled t && (currentLevelIndex t <? 2) in
   let p := mkPlayer now (trim newPlayerName) 1 0 0
              (buyInChips t + (if bonus then timeChipValue t else 0))
              None 0%R true bonus false in
   addPlayer now newPlayerName t =
   (mkTournament (tid t) (tname t) (players t ++ [p]) (blinds t)
      (levelDuration t) (currentLevelIndex t) (timeLeft t) (isRunning t)
      (stageWeight t) (buyInValue t) (buyInChips t) (rebuyValue t)
      (rebuyChips t) (addonValue t) (addonChips t) (adminFeePercent t)
      (timeChipEnabled t) (timeChipValue t) (extraChipEnabled t)
      (extraChipValue t) (extraChipAmount t), [])).
Proof.
  unfold addPlayer. rewrite truthy_trim, negb_involutive. split; intros H.
  - rewrite H. reflexivity.
  - rewrite H. destruct t; reflexivity.
Qed.

Lemma addPlayer_spec_witness :
  addPlayer 1700000000000 (js "   ") (newTournament "tr_1" "Torneio")
    = (newTournament "tr_1" "Torneio", js "   ") /\
  players (fst (addPlayer 1700000000000 (js " Ana ") (newTournament "tr_1" "Torneio")))
    = [mkPlayer 1700000000000 (js "Ana") 1 0 0 10000 None 0%R true false false] /\
  players (fst (addPlayer 1700000000000 (js "Ana")
                  (setConfig (CTimeChipEnabled true) (newTournament "tr_1" "Torneio"))))
    = [mkPlayer 1700000000000 (js "Ana") 1 0 0 12000 None 0%R true true false].
Proof.
  split; [|split].
  - apply (proj1 (addPlayer_spec 1700000000000 (js "   ")
                    (newTournament "tr_1" "Torneio"))).
    vm_compute. reflexivity.
  - rewrite (proj2 (addPlayer_spec 1700000000000 (js " Ana ")
                      (newTournament "tr_1" "Torneio")))
      by (vm_compute; reflexivity).
    vm_compute. reflexivity.
  - rewrite (proj2 (addPlayer_spec 1700000000000 (js "Ana")
                      (setConfig (CTimeChipEnabled true)
                         (newTournament "tr_1" "Torneio"))))
      by (vm_compute; reflexivity).
    vm_compute. reflexivity.
Defined.

Lemma players_save (patch : Patch) (t : Tournament) :
  forallb keepsPlayers patch = true -> players (save patch t) = players t.
Proof.
  unfold save. revert t. induction patch as [|f patch IH]; intros t H; cbn in *.
  - reflexivity.
  - apply andb_true_iff in H as [Hf H]. rewrite IH by exact H.
    destruct f; try discriminate; destruct t; reflexivity.
Qed.

Lemma players_save_players (ps : list Player) (t : Tournament) :
  players (save [FPlayers ps] t) = ps.
Proof. destruct t; reflexivity. Qed.

Lemma players_updatePlayer (i : Z) (patch : list PlayerField) (t : Tournament) :
  players (updatePlayer i patch t)
  = map (fun p => if id p =? i then patchPlayer patch p else p) (players t).
Proof. unfold updatePlayer. apply players_save_players. Qed.

Lemma players_tick (t : Tournament) : players (tick t) = players t.
Proof.
  unfold tick, timerEffect. apply players_save.
  destruct (isRunning t && (timeLeft t >? 0)); [reflexivity|].
  destruct (isRunning t && (timeLeft t =? 0)); reflexivity.
Qed.

Lemma Forall_updatePlayer (P : Player -> Prop) (i : Z)
  (patch : list PlayerField) (t : Tournament) :
  (forall q, P q -> P (patchPlayer patch q)) ->
  Forall P (players t) -> Forall P (players (updatePlayer i patch t)).
Proof.
  intros Hpatch Hall. rewrite players_updatePlayer.
  apply Forall_forall. intros q' Hin. apply in_map_iff in Hin as [q [<- Hq]].
  rewrite Forall_forall in Hall.
  destruct (id q =? i); [apply Hpatch|]; now apply Hall.
Qed.

Lemma apply_entriesInvariant (o : Op) (t : Tournament) :
  Forall entriesInvariant (players t) ->
  Forall entriesInvariant (players (apply o t)).
Proof.
  intros Hall.
  destruct o; cbn [apply]; unfold onRow;
    try (destruct (nth_error (players t) row) as [p|] eqn:Hrow; [|exact Hall]);
    try (assert (Hp : entriesInvariant p)
           by (rewrite Forall_forall in Hall; apply Hall;
               eapply nth_error_In; exact Hrow));
    try (unfold toggleRunning, reset, previousLevel, nextLevel, jumpLevel,
           setLevelDuration, setCurrentLevel, addBlindLevel, addBreak,
           updateBlind, removeBlind;
         rewrite players_save by reflexivity; exact Hall).
  - now rewrite players_tick.
  - unfold setConfig. rewrite players_save; [exact Hall|]. destruct c; reflexivity.
  - unfold addPlayer. destruct (negb (truthy (trim newPlayerName))); cbn [fst].
    + exact Hall.
    + rewrite players_save_players. apply Forall_app. split; [exact Hall|].
      constructor; [reflexivity | constructor].
  - apply Forall_updatePlayer; [|exact Hall]. intros q Hq. destruct q; exact Hq.
  - unfold purchaseExtraChip.
    destruct (extraChipEnabled t && negb (hasExtraChip p)); [|exact Hall].
    apply Forall_updatePlayer; [|exact Hall]. intros q Hq. destruct q; exact Hq.
  - apply Forall_updatePlayer; [|exact Hall]. intros q _.
    unfold entriesInvariant in *. destruct q; cbn [patchPlayer fold_left assignPlayer actions rebuys]. lia.
  - apply Forall_updatePlayer; [|exact Hall]. intros q Hq. destruct q; exact Hq.
  - apply Forall_updatePlayer; [|exact Hall]. intros q Hq. destruct q; exact Hq.
  - unfold removeRow, removePlayer. rewrite players_save_players.
    rewrite Forall_forall in *. intros q Hq. apply filter_In in Hq as [Hq _].
    now apply Hall.
Qed.

Lemma run_entriesInvariant (ops : list Op) (t : Tournament) :
  Forall entriesInvariant (players t) ->
  Forall entriesInvariant (players (run ops t)).
Proof.
  unfold run. revert t. induction ops as [|o ops IH]; intros t H; cbn.
  - exact H.
  - apply IH. now apply apply_entriesInvariant.
Qed.

Lemma nth_error_updatePlayer (t : Tournament) (row : nat) (p : Player)
  (patch : list PlayerField) :
  nth_error (players t) row = Some p ->
  nth_error (players (updatePlayer (id p) patch t)) row
  = Some (patchPlayer patch p).
Proof.
  intros Hrow. rewrite players_updatePlayer, nth_error_map, Hrow. cbn.
  now rewrite Z.eqb_refl.
Qed.

Lemma map_updatePlayer {B : Type} (g : Player -> B) (i : Z)
  (patch : list PlayerField) (t : Tournament) :
  (forall q, g (patchPlayer patch q) = g q) ->
  map g (players (updatePlayer i patch t)) = map g (players t).
Proof.
  intros H. rewrite players_updatePlayer, map_map. apply map_ext.
  intros q. destruct (id q =? i); [apply H | reflexivity].
Qed.

Lemma addPlayer_unfold (now : Z) (newPlayerName : jsString) (t : Tournament) :
  (forallb isWhiteSpace newPlayerName = true ->
   addPlayer now newPlayerName t = (t, newPlayerName)) /\
  (forallb isWhiteSpace newPlayerName = false ->
   exists p, addPlayer now newPlayerName t
             = (save [FPlayers (players t ++ [p])] t, [])
             /\ actions p = 1 /\ rebuys p = 0).
Proof.
  unfold addPlayer. rewrite truthy_trim, negb_involutive.
  split; intros H; rewrite H; [reflexivity|].
  eexists. split; [reflexivity|]. split; reflexivity.
Qed.

(** C7.  [actions = 1 + rebuys] holds for every player of every state
    reached from a state in which it holds, in particular of every state
    reached from a created tournament, whatever operations are run.
    [addPlayer] appends a player with [actions = 1] and [rebuys = 0]; the
    rebuy of a row adds exactly 1 to both counters of its player and
    [rebuyChips] to the chips; addon, extra chip and elimination leave both
    counters of every player as they were. *)
Theorem entries_rebuys_invariant :
  (forall (ops : list Op) (t : Tournament),
      Forall entriesInvariant (players t) ->
      Forall entriesInvariant (players (run ops t))) /\
  (forall (ops : list Op) (newId name : string),
      Forall entriesInvariant (players (run ops (newTournament newId name)))) /\
  (forall (now : Z) (newPlayerName : jsString) (t : Tournament),
      forallb isWhiteSpace newPlayerName = false ->
      exists p, players (fst (addPlayer now newPlayerName t)) = players t ++ [p]
                /\ actions p = 1 /\ rebuys p = 0) /\
  (forall (t : Tournament) (row : nat) (p : Player),
      nth_error (players t) row = Some p ->
      exists p', nth_error (players (rebuy p t)) row = Some p'
                 /\ actions p' = actions p + 1
                 /\ rebuys p' = rebuys p + 1
                 /\ chips p' = chips p + rebuyChips t) /\
  (forall (t : Tournament) (p : Player),
      (map actions (players (addon p t)) = map actions (players t) /\
       map rebuys (players (addon p t)) = map rebuys (players t)) /\
      (map actions (players (purchaseExtraChip p t)) = map actions (players t) /\
       map rebuys (players (purchaseExtraChip p t)) = map rebuys (players t)) /\
      (map actions (players (eliminate p t)) = map actions (players t) /\
       map rebuys (players (eliminate p t)) = map rebuys (players t))).
Proof.
  split; [|split; [|split; [|split]]].
  - intros ops t. apply run_entriesInvariant.
  - intros ops newId name. apply run_entriesInvariant. constructor.
  - intros now nm t Hname.
    destruct (proj2 (addPlayer_unfold now nm t) Hname) as [p [-> [Ha Hr]]].
    exists p. cbn [fst]. rewrite players_save_players. auto.
  - intros t row p Hrow. eexists. split.
    + unfold rebuy. apply nth_error_updatePlayer. exact Hrow.
    + destruct p; cbn. auto.
  - intros t p. split; [|split].
    + unfold addon. split; apply map_updatePlayer; intros q; destruct q; reflexivity.
    + unfold purchaseExtraChip.
      destruct (extraChipEnabled t && negb (hasExtraChip p)); [|split; reflexivity].
      split; apply map_updatePlayer; intros q; destruct q; reflexivity.
    + unfold eliminate. split; apply map_updatePlayer; intros q; destruct q; reflexivity.
Qed.

Lemma entries_rebuys_invariant_witness :
  Forall entriesInvariant
    (players (run [ORebuy 0; OAddon 0; OPurchaseExtraChip 0; OEliminate 0]
                  poolScenario)) /\
  (exists p,
      players (fst (addPlayer 1700000000000 (js "Ana")
                      (newTournament "tr_1" "Torneio"))) = [] ++ [p]
      /\ actions p = 1 /\ rebuys p = 0) /\
  (exists p',
      nth_error
        (players
           (rebuy (mkPlayer 1700000000000 (js "Ana") 2 1 1 25000 None 0%R
                     true false false) poolScenario)) 0 = Some p'
      /\ actions p' = 2 + 1 /\ rebuys p' = 1 + 1
      /\ chips p' = 25000 + rebuyChips poolScenario).
Proof.
  split; [|split].
  - apply (proj1 entries_rebuys_invariant).
    rewrite players_poolScenario.
    constructor; [reflexivity | constructor].
  - apply (proj1 (proj2 (proj2 entries_rebuys_invariant))
             1700000000000 (js "Ana") (newTournament "tr_1" "Torneio")).
    vm_compute. reflexivity.
  - apply (proj1 (proj2 (proj2 (proj2 entries_rebuys_invariant)))
             poolScenario 0%nat
             (mkPlayer 1700000000000 (js "Ana") 2 1 1 25000 None 0%R
                true false false)).
    rewrite players_poolScenario. reflexivity.
Defined.

(** ** Elimination *)

Lemma map_other_ids (i : Z) (f : Player -> Player) (l : list Player) :
  ~ In i (map id l) ->
  map (fun q => if id q =? i then f q else q) l = l.
Proof.
  induction l as [|q l IH]; intros Hnot; cbn in *; [reflexivity|].
  destruct (Z.eqb_spec (id q) i) as [Heq|Hne]; [tauto|].
  rewrite IH by tauto. reflexivity.
Qed.

(** With distinct ids, patching by id changes the one row of the player. *)
Lemma nth_error_map_id (f : Player -> Player) (l : list Player)
  (row : nat) (p : Player) :
  NoDup (map id l) ->
  nth_error l row = Some p ->
  forall r, nth_error (map (fun q => if id q =? id p then f q else q) l) r
            = if Nat.eqb r row then Some (f p) else nth_error l r.
Proof.
  revert row. induction l as [|q l IH]; intros row Hnd Hrow r.
  - destruct row; discriminate.
  - cbn [map] in *. inversion Hnd as [|? ? Hnotin Hnd']; subst.
    destruct row as [|row]; cbn in Hrow.
    + injection Hrow as ->. rewrite Z.eqb_refl.
      rewrite map_other_ids by exact Hnotin.
      destruct r; reflexivity.
    + assert (Hin : In (id p) (map id l))
        by (apply in_map; eapply nth_error_In; exact Hrow).
      destruct (Z.eqb_spec (id q) (id p)) as [Heq|Hne];
        [rewrite Heq in Hnotin; contradiction|].
      destruct r as [|r]; [reflexivity|]. cbn. now apply IH.
Qed.

Lemma activeCount_map_id (f : Player -> Player) (l : list Player) (p : Player) :
  NoDup (map id l) -> In p l -> active p = true -> active (f p) = false ->
  activeCount (map (fun q => if id q =? id p then f q else q) l)
  = activeCount l - 1.
Proof.
  unfold activeCount. intros Hnd Hin Hact Hf.
  induction l as [|q l IH]; [contradiction|].
  cbn [map] in *. inversion Hnd as [|? ? Hnotin Hnd']; subst.
  destruct Hin as [->|Hin].
  - rewrite Z.eqb_refl, map_other_ids by exact Hnotin.
    cbn [filter]. rewrite Hf, Hact. cbn [List.length]. lia.
  - assert (Hin' : In (id p) (map id l)) by now apply in_map.
    destruct (Z.eqb_spec (id q) (id p)) as [Heq|Hne];
      [rewrite Heq in Hnotin; contradiction|].
    cbn [filter]. specialize (IH Hnd' Hin).
    assert (Hpos : (1 <= List.length (filter active l))%nat).
    { assert (Hp : In p (filter active l)) by (apply filter_In; auto).
      destruct (filter active l); [contradiction | cbn; lia]. }
    destruct (active q); cbn [List.length]; lia.
Qed.

Lemma ids_updatePlayer (i : Z) (patch : list PlayerField) (t : Tournament) :
  (forall q, id (patchPlayer patch q) = id q) ->
  map id (players (updatePlayer i patch t)) = map id (players t).
Proof. apply map_updatePlayer. Qed.

(** One elimination, of the active player of a row, in a list with distinct
    ids. *)
Lemma eliminate_step (t : Tournament) (row : nat) (p : Player) :
  NoDup (map id (players t)) ->
  nth_error (players t) row = Some p ->
  active p = true ->
  let n := activeCount (players t) in
  let p' := mkPlayer (id p) (name p) (actions p) (rebuys p) (addons p)
              (chips p) (Some n) (prize p) false (hasTimeChip p)
              (hasExtraChip p) in
  (forall r, nth_error (players (eliminate p t)) r
             = if Nat.eqb r row then Some p' else nth_error (players t) r) /\
  map id (players (eliminate p t)) = map id (players t) /\
  activeCount (players (eliminate p t)) = n - 1.
Proof.
  intros Hnd Hrow Hact n p'.
  assert (Hp' : patchPlayer [PActive false; PPosition (Some n)] p = p')
    by (destruct p; reflexivity).
  split; [|split].
  - intros r. unfold eliminate. rewrite players_updatePlayer.
    fold n. rewrite (nth_error_map_id _ _ row p Hnd Hrow), Hp'. reflexivity.
  - unfold eliminate. apply ids_updatePlayer. intros q. destruct q; reflexivity.
  - unfold eliminate. rewrite players_updatePlayer. fold n.
    apply activeCount_map_id; auto.
    + eapply nth_error_In; exact Hrow.
    + rewrite Hp'. reflexivity.
Qed.

Lemma eliminations_countdown (rows : list nat) (t : Tournament) :
  NoDup (map id (players t)) ->
  NoDup rows ->
  (forall row, In row rows ->
     exists p, nth_error (players t) row = Some p /\ active p = true) ->
  (forall k row, nth_error rows k = Some row ->
     exists p', nth_error (players (run (map OEliminate rows) t)) row = Some p'
                /\ active p' = false
                /\ position p' = Some (activeCount (players t) - Z.of_nat k)) /\
  (forall r, ~ In r rows ->
     nth_error (players (run (map OEliminate rows) t)) r
     = nth_error (players t) r).
Proof.
  revert t. induction rows as [|row rows IH]; intros t Hids Hrows Hact.
  - split.
    + intros k row Hk. destruct k; discriminate.
    + reflexivity.
  - inversion Hrows as [|? ? Hnotin Hrows']; subst.
    destruct (Hact row (or_introl eq_refl)) as [p [Hrow Hp]].
    destruct (eliminate_step t row p Hids Hrow Hp) as [Hnth [Hids' Hcount]].
    assert (Hrun : run (map OEliminate (row :: rows)) t
                   = run (map OEliminate rows) (eliminate p t)).
    { unfold run. cbn [map fold_left apply]. unfold onRow. now rewrite Hrow. }
    rewrite Hrun.
    destruct (IH (eliminate p t)) as [IHpos IHkeep].
    + rewrite Hids'. exact Hids.
    + exact Hrows'.
    + intros r Hr. rewrite Hnth.
      destruct (Nat.eqb_spec r row) as [->|Hne]; [contradiction|].
      apply Hact. now right.
    + split.
      * intros k r Hk. destruct k as [|k]; cbn in Hk.
        -- injection Hk as <-. rewrite (IHkeep row Hnotin), Hnth, Nat.eqb_refl.
           eexists. split; [reflexivity|]. cbn [active position].
           split; [reflexivity|]. f_equal. cbn. lia.
        -- destruct (IHpos k r Hk) as [p' [Hp' [Hinactive Hposition]]].
           exists p'. split; [exact Hp'|]. split; [exact Hinactive|].
           rewrite Hposition, Hcount. f_equal. lia.
      * intros r Hr. cbn [In] in Hr.
        rewrite (IHkeep r) by tauto. rewrite Hnth.
        destruct (Nat.eqb_spec r row) as [->|Hne]; [tauto | reflexivity].
Qed.

(** C5.  Eliminating the active player of a row makes that player inactive
    with, as position, the number of players that were active when the
    button was pressed, the player included, and changes nothing else of the
    player.  With distinct ids, eliminating distinct active rows one after
    the other gives the first the number [n] of players active at the start,
    the next [n - 1], and so on; a row that is not eliminated keeps its
    record, so a survivor is left without a position.  Of four active
    players, the first eliminated gets 4, the next 3, the next 2, and the
    last one standing none. *)
Theorem eliminate_position :
  (forall (t : Tournament) (row : nat) (p : Player),
      nth_error (players t) row = Some p ->
      active p = true ->
      In p (filter active (players t)) /\
      nth_error (players (eliminate p t)) row
      = Some (mkPlayer (id p) (name p) (actions p) (rebuys p) (addons p)
                (chips p) (Some (activeCount (players t))) (prize p) false
                (hasTimeChip p) (hasExtraChip p))) /\
  (forall (rows : list nat) (t : Tournament),
      NoDup (map id (players t)) ->
      NoDup rows ->
      (forall row, In row rows ->
         exists p, nth_error (players t) row = Some p /\ active p = true) ->
      (forall k row, nth_error rows k = Some row ->
         exists p', nth_error (players (run (map OEliminate rows) t)) row = Some p'
                    /\ active p' = false
                    /\ position p' = Some (activeCount (players t) - Z.of_nat k)) /\
      (forall r, ~ In r rows ->
         nth_error (players (run (map OEliminate rows) t)) r
         = nth_error (players t) r)) /\
  (map active (players fourPlayers) = [true; true; true; true] /\
   map position (players (run [OEliminate 0] fourPlayers))
     = [Some 4; None; None; None] /\
   map position (players (run [OEliminate 0; OEliminate 1] fourPlayers))
     = [Some 4; Some 3; None; None] /\
   map position (players (run [OEliminate 0; OEliminate 1; OEliminate 2] fourPlayers))
     = [Some 4; Some 3; Some 2; None]).
Proof.
  split; [|split].
  - intros t row p Hrow Hact. split.
    + apply filter_In. split; [eapply nth_error_In; exact Hrow | exact Hact].
    + unfold eliminate. rewrite (nth_error_updatePlayer t row p _ Hrow).
      destruct p; reflexivity.
  - intros rows t. apply eliminations_countdown.
  - repeat split; vm_compute; reflexivity.
Qed.

Lemma eliminate_position_witness :
  (let a := mkPlayer 1700000000000 (js "A") 1 0 0 10000 None 0%R true false false in
   In a (filter active (players fourPlayers)) /\
   nth_error (players (eliminate a fourPlayers)) 0
   = Some (mkPlayer 1700000000000 (js "A") 1 0 0 10000
             (Some (activeCount (players fourPlayers))) 0%R false false false)) /\
  (exists p',
      nth_error (players (run (map OEliminate [0%nat; 1%nat]) fourPlayers)) 1
        = Some p'
      /\ active p' = false
      /\ position p' = Some (activeCount (players fourPlayers) - Z.of_nat 1)).
Proof.
  split.
  - apply (proj1 eliminate_position fourPlayers 0%nat
             (mkPlayer 1700000000000 (js "A") 1 0 0 10000 None 0%R
                true false false)).
    + vm_compute. reflexivity.
    + reflexivity.
  - refine (proj1 (proj1 (proj2 eliminate_position) [0%nat; 1%nat] fourPlayers
                     _ _ _) 1%nat 1%nat eq_refl).
    + vm_compute. repeat constructor; cbn; intuition discriminate.
    + repeat constructor; cbn; intuition discriminate.
    + intros row [<-|[<-|[]]]; eexists;
        (split; [vm_compute; reflexivity | reflexivity]).
Defined.

(** ** Tournament store *)

(** C10.  [removeTournament] keeps exactly the tournaments with another id,
    unchanged and in their order.  If the removed id was the selection, the
    new selection is the id of the first tournament of the collection before
    the removal (none for an empty collection); otherwise the selection
    stays.  So when the selected tournament is the first of the list and is
    removed, the selection is still its id: no tournament of the collection
    has it, and no active tournament is found. *)
Theorem removeTournament_spec (i : string) (s : Store) :
  tournaments (removeTournament i s)
    = filter (fun t => negb (String.eqb (tid t) i)) (tournaments s) /\
  (forall t, In t (tournaments (removeTournament i s))
             <-> In t (tournaments s) /\ tid t <> i) /\
  (activeTournamentId s = Some i ->
   activeTournamentId (removeTournament i s) = firstId (tournaments s)) /\
  (activeTournamentId s <> Some i ->
   activeTournamentId (removeTournament i s) = activeTournamentId s) /\
  (activeTournamentId s = Some i ->
   firstId (tournaments s) = Some i ->
   activeTournamentId (removeTournament i s) = Some i /\
   (forall t, In t (tournaments (removeTournament i s)) -> tid t <> i) /\
   activeTournament (removeTournament i s) = None).
Proof.
  assert (Hin : forall t, In t (tournaments (removeTournament i s))
                          <-> In t (tournaments s) /\ tid t <> i).
  { intros t. cbn [removeTournament tournaments]. rewrite filter_In.
    destruct (String.eqb_spec (tid t) i); cbn; intuition congruence. }
  assert (Hsel : activeTournamentId s = Some i ->
                 activeTournamentId (removeTournament i s) = firstId (tournaments s)).
  { intros H. cbn [removeTournament activeTournamentId]. rewrite H.
    now rewrite String.eqb_refl. }
  split; [reflexivity|]. split; [exact Hin|]. split; [exact Hsel|]. split.
  - intros H. cbn [removeTournament activeTournamentId].
    destruct (activeTournamentId s) as [cur|]; [|reflexivity].
    destruct (String.eqb_spec cur i); [congruence | reflexivity].
  - intros Hact Hfirst.
    assert (Hnew : activeTournamentId (removeTournament i s) = Some i)
      by (rewrite Hsel by exact Hact; exact Hfirst).
    split; [exact Hnew|]. split.
    + intros t Ht. now apply Hin in Ht.
    + unfold activeTournament. rewrite Hnew.
      destruct (find (fun t => String.eqb (tid t) i)
                     (tournaments (removeTournament i s))) as [t|] eqn:Hfind;
        [|reflexivity].
      apply find_some in Hfind as [Ht Heq].
      apply Hin in Ht as [_ Hne]. apply String.eqb_eq in Heq. contradiction.
Qed.

Lemma removeTournament_spec_witness :
  activeTournamentId twoTournaments = Some "tr_2"%string /\
  map tid (tournaments (removeTournament "tr_2" twoTournaments)) = ["tr_1"%string] /\
  activeTournamentId (removeTournament "tr_2" twoTournaments) = Some "tr_2"%string /\
  activeTournament (removeTournament "tr_2" twoTournaments) = None /\
  activeTournamentId (removeTournament "tr_1" twoTournaments)
    = activeTournamentId twoTournaments.
Proof.
  pose proof (removeTournament_spec "tr_2" twoTournaments)
    as [Hts [_ [_ [_ Hdangling]]]].
  destruct (Hdangling eq_refl eq_refl) as [Hid [_ Hnone]].
  split; [reflexivity|]. split; [rewrite Hts; reflexivity|].
  split; [exact Hid|]. split; [exact Hnone|].
  apply (proj1 (proj2 (proj2 (proj2 (removeTournament_spec "tr_1" twoTournaments))))).
  discriminate.
Defined.

(** * Further properties of the code *)

(** ** Clock: countdown, level cycle, end of the schedule *)

Lemma tick_decrement (t : Tournament) :
  isRunning t = true -> 0 < timeLeft t ->
  tick t = save [FTimeLeft (timeLeft t - 1)] t.
Proof.
  intros Hrun Hpos. unfold tick, timerEffect.
  replace (isRunning t && (timeLeft t >? 0)) with true
    by (rewrite Hrun; symmetry; apply Z.gtb_lt; lia).
  reflexivity.
Qed.

Lemma tick_advance (t : Tournament) :
  isRunning t = true -> timeLeft t = 0 ->
  tick t =
  save [FCurrentLevelIndex (clamp (currentLevelIndex t + 1) 0 (blindsLength t - 1));
        FTimeLeft (levelDuration t * 60);
        FIsRunning (if clamp (currentLevelIndex t + 1) 0 (blindsLength t - 1)
                       =? blindsLength t - 1
                    then false else isRunning t)] t.
Proof.
  intros Hrun Hzero. unfold tick, timerEffect. rewrite Hzero.
  replace (isRunning t && (0 >? 0)) with false by (rewrite Hrun; reflexivity).
  replace (isRunning t && (0 =? 0)) with true by (rewrite Hrun; reflexivity).
  reflexivity.
Qed.

Lemma tick_idle (t : Tournament) :
  isRunning t = false \/ timeLeft t < 0 -> tick t = t.
Proof.
  intros H. unfold tick, timerEffect.
  replace (isRunning t && (timeLeft t >? 0)) with false.
  - replace (isRunning t && (timeLeft t =? 0)) with false; [reflexivity|].
    destruct H as [-> | H]; [reflexivity|].
    symmetry. apply andb_false_iff. right. apply Z.eqb_neq. lia.
  - destruct H as [-> | H]; [reflexivity|].
    symmetry. apply andb_false_iff. right.
    destruct (Z.gtb_spec (timeLeft t) 0); [lia | reflexivity].
Qed.

Lemma ticks_add (n m : nat) (t : Tournament) :
  ticks (n + m) t = ticks m (ticks n t).
Proof.
  revert t. induction n as [|n IH]; intros t; cbn; [reflexivity | apply IH].
Qed.

(** X1.  While the clock is stopped, or once [timeLeft] is negative, no number of
    ticks changes the tournament. *)
Theorem ticks_idle (n : nat) (t : Tournament) :
  isRunning t = false \/ timeLeft t < 0 -> ticks n t = t.
Proof.
  intros H. induction n as [|n IH]; cbn; [reflexivity|].
  rewrite tick_idle by exact H. exact IH.
Qed.

Lemma ticks_idle_witness :
  ticks 1000 (newTournament "tr_1" "Torneio") = newTournament "tr_1" "Torneio".
Proof. apply ticks_idle. left. reflexivity. Defined.

Lemma ticks_decrements (n : nat) (t : Tournament) :
  isRunning t = true ->
  Z.of_nat n <= timeLeft t ->
  ticks n t = save [FTimeLeft (timeLeft t - Z.of_nat n)] t.
Proof.
  revert t. induction n as [|n IH]; intros t Hrun Hle.
  - cbn [ticks Z.of_nat]. rewrite Z.sub_0_r. destruct t; reflexivity.
  - cbn [ticks]. rewrite tick_decrement by (try assumption; lia).
    rewrite IH.
    + destruct t; cbn [save fold_left assign timeLeft]. f_equal. lia.
    + destruct t; exact Hrun.
    + destruct t; cbn [save fold_left assign timeLeft] in *. lia.
Qed.

(** X2.  A running clock with at least [n] seconds left loses exactly [n] seconds
    in [n] ticks, and nothing else of the tournament changes. *)
Theorem ticks_countdown (n : nat) (t : Tournament) :
  isRunning t = true ->
  Z.of_nat n <= timeLeft t ->
  ticks n t = save [FTimeLeft (timeLeft t - Z.of_nat n)] t.
Proof. exact (ticks_decrements n t). Qed.

Lemma ticks_countdown_witness :
  ticks 250 scenarioStart = save [FTimeLeft (600 - 250)] scenarioStart.
Proof.
  apply (ticks_countdown 250 scenarioStart); [reflexivity | vm_compute; discriminate].
Defined.

(** X3.  The schedule enters the clock only through its length: replacing the
    levels by as many other levels (other blinds, breaks, break durations)
    commutes with a tick.  In particular a break lasts [levelDuration]
    minutes like any level; its [breakDuration] is not used. *)
Theorem tick_schedule_length (bs : list BlindLevel) (t : Tournament) :
  List.length bs = List.length (blinds t) ->
  tick (save [FBlinds bs] t) = save [FBlinds bs] (tick t).
Proof.
  intros Hlen. unfold tick, timerEffect, blindsLength.
  destruct t; cbn [save fold_left assign isRunning timeLeft blinds
                   currentLevelIndex levelDuration] in *.
  rewrite Hlen.
  destruct (isRunning0 && (timeLeft0 >? 0)); [reflexivity|].
  destruct (isRunning0 && (timeLeft0 =? 0)); reflexivity.
Qed.

Lemma tick_schedule_length_witness :
  tick (save [FBlinds [mkBlind 1 25 50 0 None None;
                       mkBlind 2 0 0 0 (Some true) (Some 45)]] scenarioStart)
  = save [FBlinds [mkBlind 1 25 50 0 None None;
                   mkBlind 2 0 0 0 (Some true) (Some 45)]] (tick scenarioStart).
Proof. apply tick_schedule_length. reflexivity. Defined.

Lemma ticks_expire (t : Tournament) :
  isRunning t = true -> 0 <= timeLeft t ->
  let next := clamp (currentLevelIndex t + 1) 0 (blindsLength t - 1) in
  ticks (S (Z.to_nat (timeLeft t))) t
  = save [FCurrentLevelIndex next; FTimeLeft (levelDuration t * 60);
          FIsRunning (if next =? blindsLength t - 1 then false else true)] t.
Proof.
  intros Hrun Htime next. rewrite <- Nat.add_1_r, ticks_add.
  rewrite (ticks_decrements (Z.to_nat (timeLeft t)) t)
    by (try assumption; rewrite Z2Nat.id; lia).
  rewrite Z2Nat.id by exact Htime. rewrite Z.sub_diag.
  cbn [ticks]. rewrite tick_advance by (destruct t; assumption || reflexivity).
  subst next. unfold blindsLength.
  destruct t; cbn [save fold_left assign isRunning currentLevelIndex blinds
                   levelDuration] in *.
  rewrite Hrun. reflexivity.
Qed.

Lemma clock_stops_aux (m : nat) :
  forall t : Tournament,
    isRunning t = true -> clockInvariant t -> 0 <= levelDuration t ->
    blindsLength t - 1 - currentLevelIndex t <= Z.of_nat m ->
    exists n : nat,
      ticks n t = save [FCurrentLevelIndex (blindsLength t - 1);
                        FTimeLeft (levelDuration t * 60);
                        FIsRunning false] t.
Proof.
  induction m as [|m IH]; intros t Hrun [Hidx Htime] Hdur Hm;
    pose proof (ticks_expire t Hrun Htime) as Hexp; cbn zeta in Hexp;
    unfold clamp in Hexp.
  - exists (S (Z.to_nat (timeLeft t))). rewrite Hexp.
    replace (Z.max 0 (Z.min (blindsLength t - 1) (currentLevelIndex t + 1)))
      with (blindsLength t - 1) by lia.
    now rewrite Z.eqb_refl.
  - destruct (Z_lt_ge_dec (currentLevelIndex t + 1) (blindsLength t - 1)) as [Hlt|Hge].
    + replace (Z.max 0 (Z.min (blindsLength t - 1) (currentLevelIndex t + 1)))
        with (currentLevelIndex t + 1) in Hexp by lia.
      replace (currentLevelIndex t + 1 =? blindsLength t - 1) with false in Hexp
        by (symmetry; apply Z.eqb_neq; lia).
      destruct (IH (save [FCurrentLevelIndex (currentLevelIndex t + 1);
                          FTimeLeft (levelDuration t * 60); FIsRunning true] t))
        as [n Hn].
      * destruct t; reflexivity.
      * unfold clockInvariant, blindsLength in *.
        destruct t; cbn [save fold_left assign currentLevelIndex blinds timeLeft
                         levelDuration] in *. lia.
      * destruct t; exact Hdur.
      * unfold blindsLength in *.
        destruct t; cbn [save fold_left assign currentLevelIndex blinds] in *. lia.
      * exists (S (Z.to_nat (timeLeft t)) + n)%nat.
        rewrite ticks_add, Hexp, Hn. unfold blindsLength.
        destruct t; reflexivity.
    + exists (S (Z.to_nat (timeLeft t))). rewrite Hexp.
      replace (Z.max 0 (Z.min (blindsLength t - 1) (currentLevelIndex t + 1)))
        with (blindsLength t - 1) by lia.
      now rewrite Z.eqb_refl.
Qed.

(** X4.  A running clock whose index is in the schedule and whose time left
    and level duration are whole numbers that are not negative reaches the
    end of the schedule by ticks alone: after some number of ticks the
    tournament is stopped on the last level with the full level time on the
    clock, and no other field has changed.  This holds from the last level
    too: when its time runs out the level is entered again, stopped. *)
Theorem clock_stops_at_last_level (t : Tournament) :
  isRunning t = true -> clockInvariant t -> 0 <= levelDuration t ->
  exists n : nat,
    ticks n t = save [FCurrentLevelIndex (blindsLength t - 1);
                      FTimeLeft (levelDuration t * 60);
                      FIsRunning false] t.
Proof.
  intros Hrun Hinv Hdur.
  apply (clock_stops_aux (Z.to_nat (blindsLength t - 1 - currentLevelIndex t)));
    try assumption.
  destruct Hinv as [Hidx _]. rewrite Z2Nat.id; lia.
Qed.

Lemma clock_stops_at_last_level_witness :
  exists n : nat,
    ticks n (toggleRunning (newTournament "tr_1" "Torneio"))
    = save [FCurrentLevelIndex 4; FTimeLeft 600; FIsRunning false]
           (toggleRunning (newTournament "tr_1" "Torneio")).
Proof.
  apply (clock_stops_at_last_level (toggleRunning (newTournament "tr_1" "Torneio"))).
  - reflexivity.
  - unfold clockInvariant. vm_compute. intuition discriminate.
  - vm_compute. discriminate.
Defined.

(** ** Clock: bounds that hold in every state *)

Lemma apply_timeInvariant (o : Op) (t : Tournament) :
  timeInvariant t -> timeInvariant (apply o t).
Proof.
  unfold timeInvariant. intros [Hdur Htime].
  destruct o; cbn [apply]; unfold onRow;
    try (destruct (nth_error (players t) row); [|tauto]); unfold_ops.
  - destruct (isRunning t); cbn [andb].
    + destruct (Z.gtb_spec (timeLeft t) 0).
      * destruct t; proj_t. lia.
      * destruct (Z.eqb_spec (timeLeft t) 0); destruct t; proj_t; lia.
    + destruct t; proj_t. lia.
  - destruct t; proj_t. lia.
  - destruct t; proj_t. lia.
  - destruct t; proj_t. lia.
  - destruct t; proj_t. lia.
  - pose proof (clamp_bounds (orZ v 1) 1 180).
    destruct t; proj_t. lia.
  - destruct t; proj_t. lia.
  - destruct c; destruct t; proj_t; lia.
  - destruct (negb (truthy (trim newPlayerName))); destruct t; proj_t; lia.
  - destruct t; proj_t; lia.
  - destruct (extraChipEnabled t && negb (hasExtraChip p)); destruct t; proj_t; lia.
  - destruct t; proj_t; lia.
  - destruct t; proj_t; lia.
  - destruct t; proj_t; lia.
  - destruct t; proj_t; lia.
  - destruct t; proj_t; lia.
  - destruct t; proj_t; lia.
  - destruct t; proj_t; lia.
  - destruct t; proj_t; lia.
Qed.

(** X5.  Whatever operations are run on a created tournament, removals of
    blind levels included, with whole numbers typed into the level duration
    and level inputs: the level duration stays between 1 and 180 minutes and
    the time left stays between 0 and the full level time. *)
Theorem run_timeInvariant (ops : list Op) (newId name : string) :
  timeInvariant (run ops (newTournament newId name)).
Proof.
  unfold run.
  assert (H : timeInvariant (newTournament newId name))
    by (unfold timeInvariant; cbn; lia).
  revert H. generalize (newTournament newId name).
  induction ops as [|o ops IH]; intros t H; cbn [fold_left].
  - exact H.
  - apply IH. now apply apply_timeInvariant.
Qed.

(** X6.  For a tournament whose index is a whole number, and a whole number
    typed into the level input: reset, previous level, next level and the
    level input put the current index on an existing level whenever the
    schedule has one, whatever the index was before, so that the level
    shown is a level of the schedule; on an empty schedule they put the
    index at 0.  They leave the schedule as it is. *)
Theorem level_controls_in_range (o : Op) (t : Tournament) :
  setsLevel o = true ->
  blinds (apply o t) = blinds t /\
  (blinds t <> [] ->
   0 <= currentLevelIndex (apply o t) < blindsLength (apply o t) /\
   nth_error (blinds t) (Z.to_nat (currentLevelIndex (apply o t)))
     = Some (currentLevel (apply o t)) /\
   In (currentLevel (apply o t)) (blinds t)) /\
  (blinds t = [] -> currentLevelIndex (apply o t) = 0).
Proof.
  intros Ho.
  assert (Hlen : blinds t <> [] -> 0 <= blindsLength t - 1).
  { unfold blindsLength. destruct (blinds t); [congruence | cbn [List.length]; lia]. }
  assert (Hnil : blinds t = [] -> blindsLength t - 1 = -1).
  { unfold blindsLength. intros ->. reflexivity. }
  assert (Hblinds : blinds (apply o t) = blinds t).
  { destruct o; try discriminate; cbn [apply];
      unfold reset, previousLevel, nextLevel, jumpLevel, setCurrentLevel, save;
      destruct t; reflexivity. }
  assert (Hrange : blinds t <> [] ->
                   0 <= currentLevelIndex (apply o t) < blindsLength (apply o t)).
  { intros Hb. specialize (Hlen Hb). unfold blindsLength at 1. rewrite Hblinds.
    fold (blindsLength t).
    destruct o; try discriminate; cbn [apply];
      unfold reset, previousLevel, nextLevel, jumpLevel, setCurrentLevel, save.
    - destruct t; proj_t. unfold blindsLength in *. cbn [blinds] in *. lia.
    - pose proof (clamp_bounds (currentLevelIndex t + -1) 0 (blindsLength t - 1) Hlen).
      destruct t; proj_t. unfold blindsLength in *. cbn [blinds] in *. lia.
    - pose proof (clamp_bounds (currentLevelIndex t + 1) 0 (blindsLength t - 1) Hlen).
      destruct t; proj_t. unfold blindsLength in *. cbn [blinds] in *. lia.
    - pose proof (clamp_bounds (orZ v 0) 0 (blindsLength t - 1) Hlen).
      destruct t; proj_t. unfold blindsLength in *. cbn [blinds] in *. lia. }
  split; [exact Hblinds|]. split.
  - intros Hb. specialize (Hrange Hb). split; [exact Hrange|].
    unfold currentLevel, at_index. rewrite Hblinds.
    unfold blindsLength in Hrange. rewrite Hblinds in Hrange.
    destruct (Z.ltb_spec (currentLevelIndex (apply o t)) 0); [lia|].
    destruct (nth_error (blinds t) (Z.to_nat (currentLevelIndex (apply o t))))
      as [b|] eqn:Hnth.
    + split; [reflexivity|]. eapply nth_error_In; exact Hnth.
    + apply nth_error_None in Hnth. lia.
  - intros Hb. specialize (Hnil Hb).
    destruct o; try discriminate; cbn [apply];
      unfold reset, previousLevel, nextLevel, jumpLevel, setCurrentLevel, save, clamp.
    + destruct t; reflexivity.
    + destruct t; proj_t. unfold blindsLength in *. cbn [blinds] in *. lia.
    + destruct t; proj_t. unfold blindsLength in *. cbn [blinds] in *. lia.
    + destruct t; proj_t. unfold blindsLength in *. cbn [blinds] in *. lia.
Qed.

Lemma level_controls_in_range_witness :
  currentLevelIndex lastLevelRemoved = 4 /\
  blindsLength lastLevelRemoved = 4 /\
  currentLevel lastLevelRemoved = mkBlind 0 0 0 0 (Some false) None /\
  In (currentLevel (apply ONextLevel lastLevelRemoved)) (blinds lastLevelRemoved) /\
  currentLevelIndex (apply (OSetCurrentLevel None) noLevels) = 0.
Proof.
  split; [reflexivity|]. split; [reflexivity|]. split; [reflexivity|]. split.
  - apply (proj1 (proj2 (level_controls_in_range ONextLevel lastLevelRemoved eq_refl))).
    vm_compute. discriminate.
  - apply (proj2 (proj2 (level_controls_in_range (OSetCurrentLevel None) noLevels eq_refl))).
    reflexivity.
Defined.

(** ** Blind schedule edits *)

Lemma filteri_remove {A : Type} (index : nat) (l : list A) (k : nat) :
  filteri (fun _ j => negb (Nat.eqb j (k + index))) k l
  = firstn index l ++ skipn (S index) l.
Proof.
  revert index k. induction l as [|x l IH]; intros index k.
  - destruct index; reflexivity.
  - destruct index as [|index]; cbn [filteri].
    + rewrite Nat.add_0_r, Nat.eqb_refl. cbn [negb].
      apply filteri_above. lia.
    + destruct (Nat.eqb_spec k (k + S index)); [lia|]. cbn [negb].
      replace (k + S index)%nat with (S k + index)%nat by lia.
      rewrite IH. reflexivity.
Qed.

Lemma filteri_remove0 {A : Type} (index : nat) (l : list A) :
  filteri (fun _ j => negb (Nat.eqb j index)) 0 l
  = firstn index l ++ skipn (S index) l.
Proof. exact (filteri_remove index l 0). Qed.

Lemma nth_error_mapi {A B : Type} (f : A -> nat -> B) (l : list A) (k i : nat) :
  nth_error (mapi f k l) i = option_map (fun x => f x (k + i)%nat) (nth_error l i).
Proof.
  revert k i. induction l as [|x l IH]; intros k i.
  - destruct i; reflexivity.
  - destruct i as [|i]; cbn [mapi nth_error option_map].
    + now rewrite Nat.add_0_r.
    + rewrite IH. now replace (S k + i)%nat with (k + S i)%nat by lia.
Qed.

Lemma blinds_save_blinds (bs : list BlindLevel) (t : Tournament) :
  blinds (save [FBlinds bs] t) = bs.
Proof. destruct t; reflexivity. Qed.

(** X7.  [removeBlind index] takes out the level at [index] and keeps the others
    in their order; for an index past the end it changes nothing. *)
Theorem removeBlind_spec (index : nat) (t : Tournament) :
  blinds (removeBlind index t)
    = firstn index (blinds t) ++ skipn (S index) (blinds t) /\
  ((List.length (blinds t) <= index)%nat -> removeBlind index t = t) /\
  ((index < List.length (blinds t))%nat ->
   S (List.length (blinds (removeBlind index t))) = List.length (blinds t)).
Proof.
  assert (H : blinds (removeBlind index t)
              = firstn index (blinds t) ++ skipn (S index) (blinds t)).
  { unfold removeBlind. rewrite blinds_save_blinds.
    apply filteri_remove0. }
  split; [exact H|]. split.
  - intros Hlen. unfold removeBlind.
    rewrite filteri_remove0.
    rewrite firstn_all2 by exact Hlen. rewrite skipn_all2 by lia.
    rewrite app_nil_r. destruct t; reflexivity.
  - intros Hlt. rewrite H, length_app, length_firstn, length_skipn. lia.
Qed.

Lemma removeBlind_spec_witness :
  removeBlind 7 (newTournament "tr_1" "Torneio") = newTournament "tr_1" "Torneio" /\
  S (List.length (blinds (removeBlind 2 (newTournament "tr_1" "Torneio")))) = 5%nat.
Proof.
  split.
  - apply (proj1 (proj2 (removeBlind_spec 7 (newTournament "tr_1" "Torneio")))).
    vm_compute. repeat constructor.
  - apply (proj2 (proj2 (removeBlind_spec 2 (newTournament "tr_1" "Torneio")))).
    vm_compute. repeat constructor.
Defined.

(** X8.  [updateBlind index patch] rewrites the level at [index] and leaves
    every other level, and the number of levels, as they were; for an index
    past the end it changes no level.  A patch of one field, as the inputs
    of a level send it, puts the new value in that field of the level
    ([breakDuration] becomes present) and keeps its other fields. *)
Theorem updateBlind_spec (index : nat) (patch : list BlindField) (t : Tournament) :
  (forall i : nat,
      nth_error (blinds (updateBlind index patch t)) i
      = if Nat.eqb i index
        then option_map (fold_left assignBlind patch) (nth_error (blinds t) i)
        else nth_error (blinds t) i) /\
  List.length (blinds (updateBlind index patch t)) = List.length (blinds t) /\
  ((List.length (blinds t) <= index)%nat ->
   blinds (updateBlind index patch t) = blinds t) /\
  (forall (f : BlindField) (b : BlindLevel),
      nth_error (blinds t) index = Some b ->
      nth_error (blinds (updateBlind index [f] t)) index
      = Some (match f with
              | BLevel v =>
                  mkBlind v (smallBlind b) (bigBlind b) (ante b)
                          (isBreak b) (breakDuration b)
              | BSmallBlind v =>
                  mkBlind (level b) v (bigBlind b) (ante b)
                          (isBreak b) (breakDuration b)
              | BBigBlind v =>
                  mkBlind (level b) (smallBlind b) v (ante b)
                          (isBreak b) (breakDuration b)
              | BAnte v =>
                  mkBlind (level b) (smallBlind b) (bigBlind b) v
                          (isBreak b) (breakDuration b)
              | BBreakDuration v =>
                  mkBlind (level b) (smallBlind b) (bigBlind b) (ante b)
                          (isBreak b) (Some v)
              end)).
Proof.
  assert (H : forall (patch : list BlindField) (i : nat),
      nth_error (blinds (updateBlind index patch t)) i
      = if Nat.eqb i index
        then option_map (fold_left assignBlind patch) (nth_error (blinds t) i)
        else nth_error (blinds t) i).
  { intros patch' i. unfold updateBlind. rewrite blinds_save_blinds, nth_error_mapi.
    cbn [Nat.add]. destruct (Nat.eqb i index); destruct (nth_error (blinds t) i);
      reflexivity. }
  split; [apply H|]. split; [|split].
  - unfold updateBlind. rewrite blinds_save_blinds. apply mapi_length.
  - intros Hlen. apply nth_error_ext. intros i. rewrite H.
    destruct (Nat.eqb_spec i index) as [->|]; [|reflexivity].
    apply nth_error_None in Hlen. rewrite Hlen. reflexivity.
  - intros f b Hb. rewrite H, Nat.eqb_refl, Hb. cbn [option_map fold_left].
    destruct b, f; reflexivity.
Qed.

Lemma updateBlind_spec_witness :
  blinds (updateBlind 9 [BSmallBlind 1000] (newTournament "tr_1" "Torneio"))
    = blinds (newTournament "tr_1" "Torneio") /\
  nth_error (blinds (updateBlind 1 [BSmallBlind 60] (newTournament "tr_1" "Torneio"))) 1
    = Some (mkBlind 2 60 100 0 None None) /\
  nth_error (blinds (updateBlind 2 [BBreakDuration 15] (newTournament "tr_1" "Torneio"))) 2
    = Some (mkBlind 3 75 150 25 (Some true) (Some 15)).
Proof.
  split; [|split].
  - apply (proj1 (proj2 (proj2 (updateBlind_spec 9 [BSmallBlind 1000]
                                  (newTournament "tr_1" "Torneio"))))).
    vm_compute. repeat constructor.
  - apply (proj2 (proj2 (proj2 (updateBlind_spec 1 [] (newTournament "tr_1" "Torneio"))))
             (BSmallBlind 60) (mkBlind 2 50 100 0 None None)).
    reflexivity.
  - apply (proj2 (proj2 (proj2 (updateBlind_spec 2 [] (newTournament "tr_1" "Torneio"))))
             (BBreakDuration 15) (mkBlind 3 75 150 25 (Some true) (Some 10))).
    reflexivity.
Defined.

Lemma at_index_last {A : Type} (l : list A) (x : A) :
  at_index (l ++ [x]) (Z.of_nat (List.length (l ++ [x])) - 1) = Some x.
Proof.
  unfold at_index. rewrite length_app. cbn [List.length].
  replace (Z.of_nat (List.length l + 1) - 1) with (Z.of_nat (List.length l)) by lia.
  destruct (Z.ltb_spec (Z.of_nat (List.length l)) 0); [lia|].
  rewrite Nat2Z.id, nth_error_app2 by lia. now rewrite Nat.sub_diag.
Qed.

Lemma lastLevel_snoc (t : Tournament) (bs : list BlindLevel) (b : BlindLevel) :
  blinds t = bs ++ [b] -> lastLevel t = Some b.
Proof.
  intros H. unfold lastLevel, blindsLength. rewrite H. apply at_index_last.
Qed.

Lemma lastLevel_nil (t : Tournament) : blinds t = [] -> lastLevel t = None.
Proof. intros H. unfold lastLevel, blindsLength. rewrite H. reflexivity. Qed.

(** X9.  The level that [addBlindLevel] appends: after a last level with non-zero
    label and blinds, the next label, both blinds doubled and the same ante;
    after a last level whose blinds are 0, as every break made by [addBreak]
    has them, blinds 50/100 whatever was played before; on an empty
    schedule, level 1 with blinds 50/100. *)
Theorem addBlindLevel_spec (t : Tournament) :
  (forall bs b,
      blinds t = bs ++ [b] ->
      level b <> 0 -> smallBlind b <> 0 -> bigBlind b <> 0 ->
      blinds (addBlindLevel t)
      = blinds t ++ [mkBlind (level b + 1) (smallBlind b * 2) (bigBlind b * 2)
                             (ante b) (Some false) None]) /\
  (forall bs b,
      blinds t = bs ++ [b] ->
      smallBlind b = 0 -> bigBlind b = 0 ->
      exists lvl,
        blinds (addBlindLevel t)
        = blinds t ++ [mkBlind lvl 50 100 (ante b) (Some false) None]) /\
  (exists lvl,
      blinds (addBlindLevel (addBreak t))
      = blinds t ++ [mkBlind (orZ (option_map level (lastLevel t)) 0 + 1)
                             0 0 0 (Some true) (Some 10);
                     mkBlind lvl 50 100 0 (Some false) None]) /\
  (blinds t = [] ->
   blinds (addBlindLevel t) = [mkBlind 1 50 100 0 (Some false) None]).
Proof.
  split; [|split; [|split]].
  - intros bs b Hb Hl Hs Hbb. unfold addBlindLevel.
    rewrite blinds_save_blinds, (lastLevel_snoc t bs b Hb). cbn [option_map orZ].
    destruct (Z.eqb_spec (level b) 0); [contradiction|].
    destruct (Z.eqb_spec (smallBlind b) 0); [contradiction|].
    destruct (Z.eqb_spec (bigBlind b) 0); [contradiction|].
    destruct (Z.eqb_spec (ante b) 0) as [->|]; reflexivity.
  - intros bs b Hb Hs Hbb. unfold addBlindLevel.
    rewrite blinds_save_blinds, (lastLevel_snoc t bs b Hb). cbn [option_map orZ].
    rewrite Hs, Hbb. cbn [Z.eqb].
    eexists. do 2 f_equal.
    destruct (Z.eqb_spec (ante b) 0) as [->|]; reflexivity.
  - unfold addBlindLevel at 1.
    rewrite blinds_save_blinds.
    assert (Hbreak : blinds (addBreak t)
                     = blinds t ++ [mkBlind (orZ (option_map level (lastLevel t)) 0 + 1)
                                            0 0 0 (Some true) (Some 10)])
      by (unfold addBreak; apply blinds_save_blinds).
    rewrite (lastLevel_snoc _ _ _ Hbreak), Hbreak. cbn [option_map orZ smallBlind
      bigBlind ante level Z.eqb]. rewrite <- app_assoc. eexists. reflexivity.
  - intros Hnil. unfold addBlindLevel.
    rewrite blinds_save_blinds, (lastLevel_nil t Hnil), Hnil. reflexivity.
Qed.

Lemma addBlindLevel_spec_witness :
  blinds (addBlindLevel (newTournament "tr_1" "Torneio"))
    = defaultBlindStructure ++ [mkBlind 6 300 600 50 (Some false) None] /\
  (exists lvl,
      blinds (addBlindLevel (addBreak (newTournament "tr_1" "Torneio")))
      = blinds (addBreak (newTournament "tr_1" "Torneio"))
        ++ [mkBlind lvl 50 100 0 (Some false) None]) /\
  blinds (addBlindLevel noLevels) = [mkBlind 1 50 100 0 (Some false) None].
Proof.
  split; [|split].
  - apply (proj1 (addBlindLevel_spec (newTournament "tr_1" "Torneio"))
             (firstn 4 defaultBlindStructure) (mkBlind 5 150 300 50 None None));
      [reflexivity | discriminate | discriminate | discriminate].
  - apply (proj1 (proj2 (addBlindLevel_spec (addBreak (newTournament "tr_1" "Torneio"))))
             defaultBlindStructure (mkBlind 6 0 0 0 (Some true) (Some 10)));
      reflexivity.
  - apply (proj2 (proj2 (proj2 (addBlindLevel_spec noLevels)))). reflexivity.
Defined.

(** X10.  Removing the level that was just appended gives back the tournament as
    it was, for a level and for a break. *)
Theorem add_then_remove_level (t : Tournament) :
  removeBlind (List.length (blinds t)) (addBlindLevel t) = t /\
  removeBlind (List.length (blinds t)) (addBreak t) = t.
Proof.
  assert (H : forall (b : BlindLevel),
             removeBlind (List.length (blinds t)) (save [FBlinds (blinds t ++ [b])] t) = t).
  { intros b. unfold removeBlind. rewrite blinds_save_blinds.
    rewrite filteri_remove0.
    rewrite firstn_app, firstn_all, Nat.sub_diag. cbn [firstn].
    rewrite skipn_all2 by (rewrite length_app; cbn; lia).
    rewrite !app_nil_r. destruct t; reflexivity. }
  split; [unfold addBlindLevel | unfold addBreak]; apply H.
Qed.

(** ** Prize pool and the ledger operations *)

Section PoolDeltas.

Local Open Scope R_scope.

Lemma sumOver_app {A : Type} (f : A -> R) (l l' : list A) :
  sumOver f (l ++ l') = sumOver f l + sumOver f l'.
Proof.
  induction l as [|x l IH]; cbn; [ring|]. rewrite IH. ring.
Qed.

Lemma netContribution_players (ps : list Player) (t : Tournament) :
  netContribution (save [FPlayers ps] t) = netContribution t.
Proof. destruct t; reflexivity. Qed.

(** X12.  Admitting a player adds one [buyInValue] after the fee to the pool; a
    rejected admission adds nothing. *)
Theorem pool_addPlayer (now : Z) (newPlayerName : jsString) (t : Tournament) :
  totalPrizePool (fst (addPlayer now newPlayerName t))
  = totalPrizePool t
    + (if forallb isWhiteSpace newPlayerName then 0
       else buyInValue t * (1 - adminFeePercent t / 100)).
Proof.
  unfold addPlayer. rewrite truthy_trim, negb_involutive.
  destruct (forallb isWhiteSpace newPlayerName); cbn [fst]; [ring|].
  rewrite !totalPrizePool_sumOver, netContribution_players, players_save_players.
  rewrite sumOver_app. cbn [sumOver].
  unfold netContribution, grossContribution. cbn [actions addons hasExtraChip]. ring.
Qed.

End PoolDeltas.







(** ** Names *)

Lemma trimStart_noLeadingSpace (s : jsString) : noLeadingSpace (trimStart s).
Proof.
  induction s as [|c s IH]; cbn; [exact I|].
  destruct (isWhiteSpace c) eqn:Hc; [exact IH | exact Hc].
Qed.

Lemma trimStart_fixed (s : jsString) : noLeadingSpace s -> trimStart s = s.
Proof.
  destruct s as [|c s]; cbn; [reflexivity|]. now intros ->.
Qed.

Lemma trimStart_split (s : jsString) :
  exists pre, s = pre ++ trimStart s /\ forallb isWhiteSpace pre = true.
Proof.
  induction s as [|c s [pre [Hs Hpre]]]; cbn.
  - exists []. split; reflexivity.
  - destruct (isWhiteSpace c) eqn:Hc.
    + exists (c :: pre). cbn. rewrite Hc, Hpre. split; [now f_equal | reflexivity].
    + exists []. split; reflexivity.
Qed.

(** Dropping white space at the back keeps a front without white space. *)
Lemma trimEnd_noLeadingSpace (u : jsString) :
  noLeadingSpace u -> noLeadingSpace (trimEnd u).
Proof.
  unfold trimEnd. intros Hu.
  destruct (trimStart_split (rev u)) as [pre [Hsplit _]].
  apply (f_equal (@rev N)) in Hsplit. rewrite rev_involutive, rev_app_distr in Hsplit.
  destruct (rev (trimStart (rev u))) as [|c v]; [exact I|].
  rewrite Hsplit in Hu. exact Hu.
Qed.

(** [trim] gives a string with no white space at either end, and leaves such
    a string as it is. *)
Lemma trim_trimmed (s : jsString) :
  noLeadingSpace (trim s) /\ noLeadingSpace (rev (trim s))
  /\ trim (trim s) = trim s.
Proof.
  assert (H1 : noLeadingSpace (trim s))
    by (apply trimEnd_noLeadingSpace, trimStart_noLeadingSpace).
  assert (H2 : noLeadingSpace (rev (trim s))).
  { unfold trim, trimEnd. rewrite rev_involutive. apply trimStart_noLeadingSpace. }
  split; [exact H1|]. split; [exact H2|].
  unfold trim at 1. rewrite (trimStart_fixed _ H1).
  unfold trimEnd. rewrite (trimStart_fixed _ H2). apply rev_involutive.
Qed.

(** ** Player ledger: what holds of every player *)

Lemma addPlayer_players (now : Z) (newPlayerName : jsString) (t : Tournament) :
  players (fst (addPlayer now newPlayerName t))
  = if forallb isWhiteSpace newPlayerName then players t
    else players t
         ++ [mkPlayer now (trim newPlayerName) 1 0 0
               (buyInChips t
                + (if timeChipEnabled t && (currentLevelIndex t <? 2)
                   then timeChipValue t else 0))
               None 0%R true
               (timeChipEnabled t && (currentLevelIndex t <? 2)) false].
Proof.
  unfold addPlayer. rewrite truthy_trim, negb_involutive.
  destruct (forallb isWhiteSpace newPlayerName) eqn:H; cbn [fst]; [reflexivity|].
  apply players_save_players.
Qed.

Lemma players_apply_clock (o : Op) (t : Tournament) :
  match o with
  | OTick | OToggleRunning | OReset | OPreviousLevel | ONextLevel
  | OSetLevelDuration _ | OSetCurrentLevel _ | OSetConfig _
  | OAddBlindLevel | OAddBreak | OUpdateBlind _ _ | ORemoveBlind _ => True
  | _ => False
  end -> players (apply o t) = players t.
Proof.
  destruct o; try contradiction; intros _; cbn [apply];
    try (unfold toggleRunning, reset, previousLevel, nextLevel, jumpLevel,
           setLevelDuration, setCurrentLevel, addBlindLevel, addBreak,
           updateBlind, removeBlind;
         rewrite players_save by reflexivity; reflexivity).
  - apply players_tick.
  - unfold setConfig. apply players_save. destruct c; reflexivity.
Qed.

Lemma apply_ledgerInvariant (o : Op) (t : Tournament) :
  Forall ledgerInvariant (players t) ->
  Forall ledgerInvariant (players (apply o t)).
Proof.
  intros Hall.
  destruct o;
    try (rewrite players_apply_clock by exact I; exact Hall);
    cbn [apply]; unfold onRow;
    try (destruct (nth_error (players t) row) as [p|] eqn:Hrow; [|exact Hall]);
    try (assert (Hp : ledgerInvariant p)
           by (rewrite Forall_forall in Hall; apply Hall;
               eapply nth_error_In; exact Hrow)).
  - rewrite addPlayer_players.
    destruct (forallb isWhiteSpace newPlayerName) eqn:Hname; [exact Hall|].
    apply Forall_app. split; [exact Hall|]. constructor; [|constructor].
    unfold ledgerInvariant. cbn [prize rebuys addons active position name].
    repeat split; try lia; try discriminate.
    + intros Hnil. apply trim_nil in Hnil. congruence.
    + apply trim_trimmed.
  - apply Forall_updatePlayer; [|exact Hall]. intros q Hq. destruct q; exact Hq.
  - unfold purchaseExtraChip.
    destruct (extraChipEnabled t && negb (hasExtraChip p)); [|exact Hall].
    apply Forall_updatePlayer; [|exact Hall]. intros q Hq. destruct q; exact Hq.
  - apply Forall_updatePlayer; [|exact Hall]. intros q Hq.
    unfold ledgerInvariant in *. destruct q.
    cbn [patchPlayer fold_left assignPlayer prize rebuys addons active position name] in *.
    repeat split; try tauto; try lia.
  - apply Forall_updatePlayer; [|exact Hall]. intros q Hq.
    unfold ledgerInvariant in *. destruct q.
    cbn [patchPlayer fold_left assignPlayer prize rebuys addons active position name] in *.
    repeat split; try tauto; try lia.
  - apply Forall_updatePlayer; [|exact Hall]. intros q Hq.
    unfold ledgerInvariant in *. destruct q.
    cbn [patchPlayer fold_left assignPlayer prize rebuys addons active position name] in *.
    repeat split; try tauto; try lia; try discriminate.
    intros n Hn. injection Hn as <-. unfold activeCount. lia.
  - unfold removeRow, removePlayer. rewrite players_save_players.
    rewrite Forall_forall in *. intros q Hq. apply filter_In in Hq as [Hq _].
    now apply Hall.
Qed.

(** X13.  Whatever operations are run on a created tournament, every player has
    prize 0 (nothing ever sets a prize), counters that are not negative, a
    position exactly when inactive (no operation brings a player back), a
    position that is not negative, and a name that is not empty and has no
    white space at either end. *)
Theorem run_ledgerInvariant (ops : list Op) (newId name : string) :
  Forall ledgerInvariant (players (run ops (newTournament newId name))).
Proof.
  unfold run.
  assert (H : Forall ledgerInvariant (players (newTournament newId name)))
    by constructor.
  revert H. generalize (newTournament newId name).
  induction ops as [|o ops IH]; intros t H; cbn [fold_left].
  - exact H.
  - apply IH. now apply apply_ledgerInvariant.
Qed.

(** ** Player ids *)

Lemma same_id_same_player (l : list Player) (p q : Player) :
  NoDup (map id l) -> In p l -> In q l -> id q = id p -> q = p.
Proof.
  intros Hnd Hp Hq Heq. induction l as [|x l IH]; [contradiction|].
  cbn [map] in Hnd. inversion Hnd as [|? ? Hnotin Hnd']; subst.
  destruct Hp as [->|Hp], Hq as [->|Hq]; try reflexivity.
  - exfalso. apply Hnotin. rewrite <- Heq. now apply in_map.
  - exfalso. apply Hnotin. rewrite Heq. now apply in_map.
  - now apply IH.
Qed.

Lemma NoDup_map_filter (f : Player -> bool) (l : list Player) :
  NoDup (map id l) -> NoDup (map id (filter f l)).
Proof.
  induction l as [|x l IH]; intros Hnd; cbn; [constructor|].
  cbn [map] in Hnd. inversion Hnd as [|? ? Hnotin Hnd']; subst.
  destruct (f x); [|now apply IH].
  cbn [map]. constructor; [|now apply IH].
  intros Hin. apply Hnotin. apply in_map_iff in Hin as [y [Hy Hin]].
  apply filter_In in Hin as [Hin _]. rewrite <- Hy. now apply in_map.
Qed.

(** X14.  Every operation keeps the players' ids distinct, provided an admission
    is given a timestamp that no current player has. *)
Theorem apply_distinct_ids (o : Op) (t : Tournament) :
  NoDup (map id (players t)) ->
  freshId o t = true ->
  NoDup (map id (players (apply o t))).
Proof.
  intros Hnd Hfresh.
  destruct o;
    try (rewrite players_apply_clock by exact I; exact Hnd);
    cbn [apply]; unfold onRow;
    try (destruct (nth_error (players t) row) as [p|] eqn:Hrow; [|exact Hnd]).
  - rewrite addPlayer_players.
    destruct (forallb isWhiteSpace newPlayerName); [exact Hnd|].
    rewrite map_app. cbn [map id].
    apply NoDup_app; [exact Hnd | repeat constructor; intros [] |].
    intros i Hi [<-|[]]. cbn [freshId] in Hfresh.
    apply negb_true_iff in Hfresh.
    apply in_map_iff in Hi as [q [Hq Hin]].
    assert (Hex : existsb (fun p => id p =? now) (players t) = true)
      by (apply existsb_exists; exists q; split; [exact Hin | now apply Z.eqb_eq]).
    congruence.
  - unfold setChips. rewrite ids_updatePlayer; [exact Hnd|]. intros q; destruct q; reflexivity.
  - unfold purchaseExtraChip.
    destruct (extraChipEnabled t && negb (hasExtraChip p)); [|exact Hnd].
    rewrite ids_updatePlayer; [exact Hnd|]. intros q; destruct q; reflexivity.
  - unfold rebuy. rewrite ids_updatePlayer; [exact Hnd|]. intros q; destruct q; reflexivity.
  - unfold addon. rewrite ids_updatePlayer; [exact Hnd|]. intros q; destruct q; reflexivity.
  - unfold eliminate. rewrite ids_updatePlayer; [exact Hnd|]. intros q; destruct q; reflexivity.
  - unfold removeRow, removePlayer. rewrite players_save_players.
    now apply NoDup_map_filter.
Qed.

Lemma apply_distinct_ids_witness :
  NoDup (map id (players (apply (OAddPlayer 1700000000004 (js "E")) fourPlayers))).
Proof.
  apply apply_distinct_ids.
  - vm_compute. repeat constructor; cbn; intuition discriminate.
  - vm_compute. reflexivity.
Defined.

(** X15.  The row buttons act on every player that carries the id of the pressed
    row: after a rebuy such a player has the pressed player's counters and
    chips, each raised as for the pressed player, and after an elimination
    it is inactive with the same position. *)
Theorem row_buttons_shared_id (t : Tournament) (p q : Player) (r : nat) :
  nth_error (players t) r = Some q ->
  id q = id p ->
  (exists q', nth_error (players (rebuy p t)) r = Some q'
              /\ name q' = name q
              /\ rebuys q' = rebuys p + 1
              /\ actions q' = actions p + 1
              /\ chips q' = chips p + rebuyChips t) /\
  (exists q', nth_error (players (eliminate p t)) r = Some q'
              /\ name q' = name q
              /\ active q' = false
              /\ position q' = Some (activeCount (players t))).
Proof.
  intros Hr Hid. split.
  - unfold rebuy. rewrite players_updatePlayer, nth_error_map, Hr.
    cbn [option_map]. rewrite Hid, Z.eqb_refl.
    eexists. split; [reflexivity|]. destruct q; cbn. auto.
  - unfold eliminate. rewrite players_updatePlayer, nth_error_map, Hr.
    cbn [option_map]. rewrite Hid, Z.eqb_refl.
    eexists. split; [reflexivity|]. destruct q; cbn. auto.
Qed.

Lemma row_buttons_shared_id_witness :
  let twins :=
    run [OAddPlayer 1700000000000 (js "Ana"); ORebuy 0;
         OAddPlayer 1700000000000 (js "Bia")]
        (newTournament "tr_1" "Torneio") in
  exists q', nth_error (players
                          (rebuy (mkPlayer 1700000000000 (js "Ana") 2 1 0 20000
                                    None 0%R true false false) twins)) 1
             = Some q'
             /\ name q' = js "Bia" /\ rebuys q' = 1 + 1.
Proof.
  intros twins.
  destruct (proj1 (row_buttons_shared_id twins
                     (mkPlayer 1700000000000 (js "Ana") 2 1 0 20000 None 0%R
                        true false false)
                     (mkPlayer 1700000000000 (js "Bia") 1 0 0 10000 None 0%R
                        true false false) 1%nat
                     ltac:(vm_compute; reflexivity) eq_refl))
    as [q' [Hq [Hname [Hrebuys _]]]].
  exists q'. split; [exact Hq|]. split; [exact Hname | exact Hrebuys].
Defined.

(** ** Extra chip and repeated elimination *)

(** X16.  The extra chip is bought at most once: pressing the button of a row a
    second time changes nothing. *)
Theorem purchaseExtraChip_once (row : nat) (t : Tournament) :
  apply (OPurchaseExtraChip row) (apply (OPurchaseExtraChip row) t)
  = apply (OPurchaseExtraChip row) t.
Proof.
  cbn [apply]. unfold onRow at 2 3.
  destruct (nth_error (players t) row) as [p|] eqn:Hrow.
  - unfold purchaseExtraChip at 2 3.
    destruct (extraChipEnabled t && negb (hasExtraChip p)) eqn:Hguard.
    + unfold onRow.
      rewrite (nth_error_updatePlayer t row p _ Hrow).
      unfold purchaseExtraChip.
      replace (hasExtraChip (patchPlayer [PHasExtraChip true;
                 PChips (chips p + extraChipAmount t)] p)) with true
        by (destruct p; reflexivity).
      now rewrite andb_false_r.
    + unfold onRow. rewrite Hrow. unfold purchaseExtraChip. now rewrite Hguard.
  - unfold onRow. now rewrite Hrow.
Qed.

Lemma activeCount_map_same (g : Player -> Player) (l : list Player) :
  (forall q, In q l -> active (g q) = active q) ->
  activeCount (map g l) = activeCount l.
Proof.
  unfold activeCount. intros H. f_equal.
  induction l as [|x l IH]; [reflexivity|].
  cbn [map filter]. rewrite (H x) by (left; reflexivity).
  assert (IH' : List.length (filter active (map g l)) = List.length (filter active l))
    by (apply IH; intros q Hq; apply H; now right).
  destruct (active x); cbn [List.length]; now rewrite IH'.
Qed.

(** X17.  The elimination button is not guarded by [active].  Pressed on a player
    that is already out, it replaces the player's position by the current
    number of active players and leaves that number as it is; the next
    active player eliminated therefore gets the very same position. *)
Theorem eliminate_inactive (t : Tournament) (row : nat) (p : Player) :
  NoDup (map id (players t)) ->
  nth_error (players t) row = Some p ->
  active p = false ->
  let n := activeCount (players t) in
  let p' := mkPlayer (id p) (name p) (actions p) (rebuys p) (addons p)
              (chips p) (Some n) (prize p) false (hasTimeChip p)
              (hasExtraChip p) in
  nth_error (players (eliminate p t)) row = Some p' /\
  activeCount (players (eliminate p t)) = n /\
  (forall rq q,
      nth_error (players t) rq = Some q -> active q = true ->
      nth_error (players (eliminate q (eliminate p t))) row = Some p' /\
      exists q', nth_error (players (eliminate q (eliminate p t))) rq = Some q'
                 /\ position q' = Some n).
Proof.
  intros Hnd Hrow Hact n p'.
  assert (Hp' : patchPlayer [PActive false; PPosition (Some n)] p = p')
    by (destruct p; reflexivity).
  assert (Hin : In p (players t)) by (eapply nth_error_In; exact Hrow).
  assert (Hnth : forall r, nth_error (players (eliminate p t)) r
                           = if Nat.eqb r row then Some p' else nth_error (players t) r).
  { intros r. unfold eliminate. rewrite players_updatePlayer. fold n.
    rewrite (nth_error_map_id _ _ row p Hnd Hrow), Hp'. reflexivity. }
  assert (Hcount : activeCount (players (eliminate p t)) = n).
  { unfold eliminate. rewrite players_updatePlayer. apply activeCount_map_same.
    intros q Hq. destruct (Z.eqb_spec (id q) (id p)) as [Heq|]; [|reflexivity].
    rewrite (same_id_same_player _ p q Hnd Hin Hq Heq), Hact.
    destruct p; reflexivity. }
  split; [rewrite Hnth, Nat.eqb_refl; reflexivity|]. split; [exact Hcount|].
  intros rq q Hq Hqact.
  assert (Hne : rq <> row) by (intros ->; congruence).
  assert (Hq1 : nth_error (players (eliminate p t)) rq = Some q).
  { rewrite Hnth. destruct (Nat.eqb_spec rq row); [contradiction | exact Hq]. }
  assert (Hnd1 : NoDup (map id (players (eliminate p t)))).
  { unfold eliminate. rewrite ids_updatePlayer; [exact Hnd|].
    intros x; destruct x; reflexivity. }
  destruct (eliminate_step (eliminate p t) rq q Hnd1 Hq1 Hqact) as [Hnth2 _].
  split.
  - rewrite Hnth2, Hnth, Nat.eqb_refl.
    destruct (Nat.eqb_spec row rq); [congruence | reflexivity].
  - rewrite Hnth2, Nat.eqb_refl. eexists. split; [reflexivity|].
    cbn [position]. now rewrite Hcount.
Qed.

Lemma eliminate_inactive_witness :
  let t := run [OEliminate 0] fourPlayers in
  let a := mkPlayer 1700000000000 (js "A") 1 0 0 10000 (Some 4) 0%R false false false in
  nth_error (players (eliminate a t)) 0
    = Some (mkPlayer 1700000000000 (js "A") 1 0 0 10000
              (Some (activeCount (players t))) 0%R false false false) /\
  activeCount (players (eliminate a t)) = activeCount (players t).
Proof.
  intros t a.
  destruct (eliminate_inactive t 0%nat a
              ltac:(vm_compute; repeat constructor; cbn; intuition discriminate)
              ltac:(vm_compute; reflexivity) eq_refl)
    as [H1 [H2 _]].
  split; [exact H1 | exact H2].
Defined.

(** ** Ranking: order and ties *)

Section RankingOrder.

Local Open Scope R_scope.

Lemma calculateRanking_nonneg (a p : Z) (w : R) :
  0 <= w -> 0 <= calculateRanking a p w.
Proof.
  intros Hw. unfold calculateRanking, Math_pow.
  destruct ((p <=? 0)%Z || (a <=? 0)%Z); [lra|].
  apply Rmult_le_pos; [|exact Hw].
  unfold Rpower. left. apply exp_pos.
Qed.

(** X18.  With a stage weight that is not negative the score is not negative, it
    does not decrease when the entries grow or the position improves, and a
    score is the score at weight 1 times the weight.  So a rebuy never
    lowers a score, and a player still in the game, who is scored at the
    position [players.length], scores no more than an eliminated player
    with as many entries. *)
Theorem calculateRanking_monotone (a1 a2 p1 p2 : Z) (w : R) :
  0 <= w ->
  (a1 <= a2)%Z -> (0 < p2 <= p1)%Z ->
  0 <= calculateRanking a1 p1 w /\
  calculateRanking a1 p1 w <= calculateRanking a2 p2 w /\
  calculateRanking a1 p1 w = calculateRanking a1 p1 1 * w.
Proof.
  intros Hw Ha [Hp2 Hp].
  split; [now apply calculateRanking_nonneg|]. split.
  - destruct (Z_le_gt_dec a1 0) as [Hle|Hgt].
    + rewrite (calculateRanking_zero a1 p1 w) by (now left).
      now apply calculateRanking_nonneg.
    + rewrite !calculateRanking_positive by lia.
      apply Rmult_le_compat_r; [exact Hw|].
      apply sqrt_le_1_alt.
      apply Rmult_le_compat_r; [lra|].
      assert (H1 : 0 < IZR a1) by (apply IZR_lt; lia).
      assert (H2 : IZR a1 <= IZR a2) by (now apply IZR_le).
      assert (H3 : 0 < IZR p2) by (now apply IZR_lt).
      assert (H4 : IZR p2 <= IZR p1) by (now apply IZR_le).
      unfold Rdiv. apply Rmult_le_compat; try lra.
      * left. apply Rinv_0_lt_compat. lra.
      * apply Rinv_le_contravar; lra.
  - unfold calculateRanking.
    destruct ((p1 <=? 0)%Z || (a1 <=? 0)%Z); ring.
Qed.

Lemma calculateRanking_monotone_witness :
  calculateRanking 1 4 1 <= calculateRanking 2 4 1 /\
  calculateRanking 1 4 1 <= calculateRanking 1 3 1.
Proof.
  split.
  - apply (calculateRanking_monotone 1 2 4 4 1); [lra | lia | lia].
  - apply (calculateRanking_monotone 1 1 4 3 1); [lra | lia | lia].
Defined.

Lemma filter_sortInsert {A : Type} (key : A -> R) (keep : A -> bool)
  (x : A) (l : list A) :
  (forall a b, keep a = true -> keep b = true -> key a = key b) ->
  filter keep (sortInsert (fun a b => key b - key a) x l)
  = filter keep (x :: l).
Proof.
  intros Hkeep. induction l as [|y l IH]; [reflexivity|].
  cbn [sortInsert]. destruct (Rlt_dec 0 (key y - key x)) as [Hlt|]; [|reflexivity].
  cbn [filter] in *. rewrite IH.
  destruct (keep x) eqn:Hx, (keep y) eqn:Hy; try reflexivity.
  specialize (Hkeep x y Hx Hy). lra.
Qed.

Lemma filter_sort {A : Type} (key : A -> R) (keep : A -> bool) (l : list A) :
  (forall a b, keep a = true -> keep b = true -> key a = key b) ->
  filter keep (sort (fun a b => key b - key a) l) = filter keep l.
Proof.
  intros Hkeep. induction l as [|x l IH]; [reflexivity|].
  cbn [sort]. rewrite filter_sortInsert by exact Hkeep.
  cbn [filter]. now rewrite IH.
Qed.

(** X19.  Ties keep the order of the players list: the players with any one score
    stand in the ranking in the order in which they stand in the list. *)
Theorem withScores_stable (t : Tournament) (k : R) :
  filter (scoreIs k) (withScores t)
  = filter (scoreIs k) (map (scored t) (players t)).
Proof.
  unfold withScores. apply filter_sort.
  intros a b Ha Hb. unfold scoreIs in *.
  destruct (Req_dec_T (score a) k); [|discriminate].
  destruct (Req_dec_T (score b) k); [|discriminate]. congruence.
Qed.

Lemma StronglySorted_app_le {A : Type} (R : A -> A -> Prop) (l1 l2 : list A) :
  StronglySorted R (l1 ++ l2) ->
  StronglySorted R l1 /\ forall x y, In x l1 -> In y l2 -> R x y.
Proof.
  induction l1 as [|a l1 IH]; cbn; intros Hs.
  - split; [constructor | intros x y []].
  - inversion Hs as [|? ? Hs' Hall]; subst.
    destruct (IH Hs') as [Hs1 Hle]. split.
    + constructor; [exact Hs1|].
      rewrite Forall_forall in *. intros x Hx. apply Hall, in_or_app. now left.
    + intros x y [<-|Hx] Hy.
      * rewrite Forall_forall in Hall. apply Hall, in_or_app. now right.
      * now apply Hle.
Qed.

Lemma StronglySorted_impl {A : Type} (R R' : A -> A -> Prop) (l : list A) :
  (forall a b, R a b -> R' a b) -> StronglySorted R l -> StronglySorted R' l.
Proof.
  intros Himpl. induction 1 as [|a l Hs IH Hall]; constructor; [exact IH|].
  eapply Forall_impl; [|exact Hall]. intros b. apply Himpl.
Qed.

(** X20.  The stacks shown are at most six, as many as there are players if they
    are fewer, in descending order of chips, and no player left out has
    more chips than a player shown. *)
Theorem topStacks_spec (t : Tournament) :
  List.length (topStacks t) = Nat.min 6 (List.length (players t)) /\
  StronglySorted (fun a b => (chips b <= chips a)%Z) (topStacks t) /\
  exists rest,
    Permutation (players t) (topStacks t ++ rest) /\
    forall x y, In x (topStacks t) -> In y rest -> (chips y <= chips x)%Z.
Proof.
  set (key := fun p : Player => IZR (chips p)).
  set (sorted := sort (fun a b => key b - key a) (players t)).
  change (topStacks t) with (firstn 6 sorted).
  assert (Hperm : Permutation (players t) sorted) by apply (sort_Permutation key).
  assert (Hsorted : StronglySorted (fun a b => (chips b <= chips a)%Z) sorted).
  { apply (StronglySorted_impl (fun a b => key a >= key b)).
    - intros a b Hab. apply le_IZR. unfold key in Hab. lra.
    - apply (sort_StronglySorted key). }
  assert (Hlen : List.length sorted = List.length (players t))
    by (symmetry; now apply Permutation_length).
  rewrite <- (firstn_skipn 6 sorted) in Hsorted, Hperm.
  destruct (StronglySorted_app_le _ _ _ Hsorted) as [Htop Hle].
  split; [|split].
  - rewrite length_firstn, Hlen. reflexivity.
  - exact Htop.
  - exists (skipn 6 sorted). split; [exact Hperm | exact Hle].
Qed.

End RankingOrder.

(** ** Clock face *)

Lemma jsString_eqb_eq (a b : jsString) : jsString_eqb a b = true -> a = b.
Proof.
  revert b. induction a as [|x a IH]; intros [|y b]; cbn; try discriminate.
  - reflexivity.
  - intros H. apply andb_true_iff in H as [Hxy Hab].
    apply N.eqb_eq in Hxy. subst. f_equal. now apply IH.
Qed.

Lemma formatTime_checked :
  forallb (fun n => jsString_eqb (formatTime (Z.of_nat n)) (clockFace (Z.of_nat n)))
          (seq 0 (Z.to_nat 10801)) = true.
Proof. vm_compute. reflexivity. Qed.

(** X21.  For every whole number of seconds from 0 to 10800 (180 minutes,
    the most that a whole-number level duration puts on the clock),
    [formatTime] shows the minutes in two digits (three from 100 minutes
    on), a colon and the seconds in two digits. *)
Theorem formatTime_clockFace (seconds : Z) :
  0 <= seconds <= 10800 -> formatTime seconds = clockFace seconds.
Proof.
  intros Hs. apply jsString_eqb_eq.
  pose proof formatTime_checked as H. rewrite forallb_forall in H.
  specialize (H (Z.to_nat seconds)). rewrite Z2Nat.id in H by lia.
  apply H. apply in_seq. lia.
Qed.

Lemma formatTime_clockFace_witness :
  formatTime 599 = js "09:59" /\ formatTime 10800 = js "180:00".
Proof.
  split.
  - rewrite (formatTime_clockFace 599) by lia. reflexivity.
  - rewrite (formatTime_clockFace 10800) by lia. reflexivity.
Defined.

(** ** Store: saving, creating, removing *)

Lemma tid_assign (t : Tournament) (f : Field) : tid (assign t f) = tid t.
Proof. destruct t, f; reflexivity. Qed.

Lemma tid_fold_assign (patch : Patch) (t : Tournament) :
  tid (fold_left assign patch t) = tid t.
Proof.
  revert t. induction patch as [|f patch IH]; intros t; cbn; [reflexivity|].
  now rewrite IH, tid_assign.
Qed.

Lemma find_replaced (cur : string) (a u : Tournament) (l : list Tournament) :
  tid u = cur ->
  find (fun t => String.eqb (tid t) cur) l = Some a ->
  find (fun t => String.eqb (tid t) cur)
       (map (fun t => if String.eqb (tid t) (tid a) then u else t) l) = Some u.
Proof.
  intros Hu. induction l as [|x l IH]; cbn; [discriminate|].
  destruct (String.eqb_spec (tid x) cur) as [Hx|Hx].
  - intros H. injection H as <-. rewrite String.eqb_refl, Hu, String.eqb_refl.
    reflexivity.
  - intros H. specialize (IH H).
    assert (Ha : tid a = cur).
    { apply find_some in H as [_ H]. now apply String.eqb_eq in H. }
    rewrite Ha in IH |- *. destruct (String.eqb_spec (tid x) cur); [contradiction|].
    destruct (String.eqb_spec (tid x) cur); [contradiction | exact IH].
Qed.

Lemma filter_other_ids (i : string) (l : list Tournament) :
  ~ In i (map tid l) ->
  filter (fun t => negb (String.eqb (tid t) i)) l = l.
Proof.
  induction l as [|x l IH]; intros Hnot; cbn in *; [reflexivity|].
  destruct (String.eqb_spec (tid x) i); [tauto|]. cbn. rewrite IH by tauto.
  reflexivity.
Qed.

Lemma find_none_ids (i : string) (l : list Tournament) :
  ~ In i (map tid l) -> find (fun t => String.eqb (tid t) i) l = None.
Proof.
  induction l as [|x l IH]; intros Hnot; cbn in *; [reflexivity|].
  destruct (String.eqb_spec (tid x) i); [tauto|]. apply IH. tauto.
Qed.

(** X22.  What is saved is what is read back: after [save] the active tournament
    is the former one with the patch merged, the selection is the same, and
    there are as many tournaments as before. *)
Theorem save_then_read (patch : Patch) (s : Store) (a : Tournament) :
  activeTournament s = Some a ->
  activeTournament (App.save patch s) = Some (save patch a) /\
  activeTournamentId (App.save patch s) = activeTournamentId s /\
  List.length (tournaments (App.save patch s)) = List.length (tournaments s).
Proof.
  intros Ha. unfold App.save. rewrite Ha. cbn [activeTournamentId tournaments].
  split; [|split; [reflexivity | apply length_map]].
  unfold activeTournament in *. cbn [activeTournamentId tournaments].
  destruct (activeTournamentId s) as [cur|]; [|discriminate].
  apply find_replaced; [|exact Ha].
  rewrite tid_fold_assign. apply find_some in Ha as [_ Ha].
  now apply String.eqb_eq in Ha.
Qed.

Lemma save_then_read_witness :
  activeTournament (App.save [FIsRunning true] twoTournaments)
  = Some (save [FIsRunning true] (newTournament "tr_2" "Torneio B")).
Proof.
  apply (proj1 (save_then_read [FIsRunning true] twoTournaments
                  (newTournament "tr_2" "Torneio B") eq_refl)).
Defined.

(** X23.  With distinct tournament ids, [save] of the application and
    [updateTournament] on the selected id are the same update: the patch is
    merged over the selected tournament and every other tournament is left
    as it is. *)
Theorem save_is_updateTournament (patch : Patch) (s : Store) (cur : string) :
  NoDup (map tid (tournaments s)) ->
  activeTournamentId s = Some cur ->
  App.save patch s = updateTournament cur patch s.
Proof.
  intros Hnd Hcur. unfold App.save, updateTournament, activeTournament.
  rewrite Hcur. destruct s as [ts sel]. cbn [tournaments activeTournamentId] in *.
  destruct (find (fun t => String.eqb (tid t) cur) ts) as [a|] eqn:Hfind.
  - f_equal. apply find_some in Hfind as [Hin Ha]. apply String.eqb_eq in Ha.
    rewrite Ha. clear sel Hcur.
    induction ts as [|x ts IH]; [reflexivity|].
    cbn [map] in *. inversion Hnd as [|? ? Hnotin Hnd']; subst.
    destruct (String.eqb_spec (tid x) (tid a)) as [Hx|Hx].
    + destruct Hin as [->|Hin].
      * f_equal. apply map_ext_in. intros y Hy.
        destruct (String.eqb_spec (tid y) (tid a)) as [Hy'|]; [|reflexivity].
        exfalso. apply Hnotin. rewrite <- Hy'. now apply in_map.
      * exfalso. apply Hnotin. rewrite Hx. now apply in_map.
    + destruct Hin as [->|Hin]; [contradiction|]. f_equal. now apply IH.
  - f_equal; [|exact Hcur]. symmetry. rewrite <- (map_id ts) at 2. apply map_ext_in.
    intros y Hy. destruct (String.eqb_spec (tid y) cur) as [Hy'|]; [|reflexivity].
    pose proof (find_none _ _ Hfind y Hy) as Hno. cbn beta in Hno.
    apply String.eqb_neq in Hno. contradiction.
Qed.

Lemma save_is_updateTournament_witness :
  App.save [FIsRunning true] twoTournaments
  = updateTournament "tr_2" [FIsRunning true] twoTournaments.
Proof.
  apply save_is_updateTournament; [|reflexivity].
  cbn. repeat constructor; cbn; intuition discriminate.
Defined.

(** X24.  Removing the selected tournament while it is the first of the list
    leaves the application without an active tournament, and from then on
    [save] changes nothing, whatever other tournaments remain. *)
Theorem save_after_removing_selected (patch : Patch) (i : string) (s : Store) :
  activeTournamentId s = Some i ->
  firstId (tournaments s) = Some i ->
  activeTournament (removeTournament i s) = None /\
  App.save patch (removeTournament i s) = removeTournament i s.
Proof.
  intros Hsel Hfirst.
  assert (Hnone : activeTournament (removeTournament i s) = None).
  { unfold activeTournament, removeTournament.
    cbn [activeTournamentId tournaments]. rewrite Hsel, String.eqb_refl, Hfirst.
    destruct (find (fun t => String.eqb (tid t) i)
                   (filter (fun t => negb (String.eqb (tid t) i)) (tournaments s)))
      as [t|] eqn:Hfind; [|reflexivity].
    apply find_some in Hfind as [Hin Heq]. apply filter_In in Hin as [_ Hne].
    rewrite Heq in Hne. discriminate. }
  split; [exact Hnone|]. unfold App.save. now rewrite Hnone.
Qed.

Lemma save_after_removing_selected_witness :
  App.save [FIsRunning true] (removeTournament "tr_2" twoTournaments)
  = removeTournament "tr_2" twoTournaments /\
  map tid (tournaments (removeTournament "tr_2" twoTournaments)) = ["tr_1"%string].
Proof.
  split; [|reflexivity].
  apply (proj2 (save_after_removing_selected [FIsRunning true] "tr_2"
                  twoTournaments eq_refl eq_refl)).
Defined.

(** X25.  A created tournament is the active one at once.  Removing it again, when
    its id was new, gives back the collection as it was but not the
    selection: the selection stays on the removed id and no tournament is
    active, although the earlier tournaments are all there. *)
Theorem create_then_remove (newId name : string) (s : Store) :
  ~ In newId (map tid (tournaments s)) ->
  activeTournament (createTournament newId name s)
    = Some (newTournament newId name) /\
  removeTournament newId (createTournament newId name s)
    = mkStore (tournaments s) (Some newId) /\
  activeTournament (removeTournament newId (createTournament newId name s))
    = None.
Proof.
  intros Hnew.
  assert (Hremove : removeTournament newId (createTournament newId name s)
                    = mkStore (tournaments s) (Some newId)).
  { unfold removeTournament, createTournament.
    cbn [tournaments activeTournamentId filter firstId newTournament tid].
    rewrite String.eqb_refl. cbn [negb].
    now rewrite filter_other_ids by exact Hnew. }
  split; [|split; [exact Hremove|]].
  - unfold activeTournament, createTournament.
    cbn [tournaments activeTournamentId find newTournament tid].
    now rewrite String.eqb_refl.
  - rewrite Hremove. unfold activeTournament. cbn [activeTournamentId tournaments].
    now apply find_none_ids.
Qed.

Lemma create_then_remove_witness :
  removeTournament "tr_3" (createTournament "tr_3" "Torneio C" twoTournaments)
  = mkStore (tournaments twoTournaments) (Some "tr_3"%string).
Proof.
  refine (proj1 (proj2 (create_then_remove "tr_3" "Torneio C" twoTournaments _))).
  cbn. intuition discriminate.
Defined.

(** ** Positions after a late admission, and the level shown *)

Lemma activeCount_snoc (l : list Player) (x : Player) :
  active x = true -> activeCount (l ++ [x]) = activeCount l + 1.
Proof.
  intros Hx. unfold activeCount. rewrite filter_app, length_app.
  cbn [filter]. rewrite Hx. cbn [List.length]. lia.
Qed.

(** X26.  Positions count the players still active, so they repeat once a player
    is admitted after an elimination: if a player is eliminated, a new
    player is admitted under a new id and is eliminated next, both hold the
    position of the first. *)
Theorem late_admission_repeats_position
  (t : Tournament) (row : nat) (p : Player) (now : Z) (newPlayerName : jsString) :
  NoDup (map id (players t)) ->
  nth_error (players t) row = Some p ->
  active p = true ->
  ~ In now (map id (players t)) ->
  forallb isWhiteSpace newPlayerName = false ->
  let n := activeCount (players t) in
  let t1 := eliminate p t in
  let t2 := fst (addPlayer now newPlayerName t1) in
  exists late,
    nth_error (players t2) (List.length (players t)) = Some late /\
    id late = now /\ active late = true /\
    let t3 := eliminate late t2 in
    (exists p', nth_error (players t3) row = Some p' /\ id p' = id p
                /\ position p' = Some n) /\
    (exists late', nth_error (players t3) (List.length (players t)) = Some late'
                   /\ id late' = now /\ position late' = Some n).
Proof.
  intros Hnd Hrow Hact Hnew Hname n t1 t2.
  destruct (eliminate_step t row p Hnd Hrow Hact) as [Hnth1 [Hids1 Hcount1]].
  fold t1 n in Hnth1, Hids1, Hcount1.
  assert (Hlen1 : List.length (players t1) = List.length (players t)).
  { rewrite <- (length_map id (players t1)), Hids1. apply length_map. }
  assert (Hrowlt : (row < List.length (players t))%nat)
    by (apply nth_error_Some; congruence).
  pose proof (addPlayer_players now newPlayerName t1) as Hps2.
  fold t2 in Hps2. rewrite Hname in Hps2.
  set (late := mkPlayer now (trim newPlayerName) 1 0 0
                 (buyInChips t1
                  + (if timeChipEnabled t1 && (currentLevelIndex t1 <? 2)
                     then timeChipValue t1 else 0))
                 None 0%R true
                 (timeChipEnabled t1 && (currentLevelIndex t1 <? 2)) false) in *.
  assert (Hlate : nth_error (players t2) (List.length (players t)) = Some late).
  { rewrite Hps2, nth_error_app2 by lia. rewrite Hlen1, Nat.sub_diag. reflexivity. }
  exists late. split; [exact Hlate|]. split; [reflexivity|]. split; [reflexivity|].
  assert (Hnd2 : NoDup (map id (players t2))).
  { rewrite Hps2, map_app, Hids1. cbn [map id late].
    apply NoDup_app; [exact Hnd | repeat constructor; intros [] |].
    intros i Hi [<-|[]]. contradiction. }
  assert (Hcount2 : activeCount (players t2) = n).
  { rewrite Hps2, activeCount_snoc by reflexivity. lia. }
  destruct (eliminate_step t2 (List.length (players t)) late Hnd2 Hlate eq_refl)
    as [Hnth3 _].
  cbn zeta. split.
  - rewrite Hnth3. destruct (Nat.eqb_spec row (List.length (players t))); [lia|].
    rewrite Hps2, nth_error_app1 by lia. rewrite Hnth1, Nat.eqb_refl.
    eexists. split; [reflexivity|]. split; reflexivity.
  - rewrite Hnth3, Nat.eqb_refl. eexists. split; [reflexivity|].
    split; [reflexivity|]. cbn [position]. now rewrite Hcount2.
Qed.

Lemma late_admission_repeats_position_witness :
  let a := mkPlayer 1700000000000 (js "A") 1 0 0 10000 None 0%R true false false in
  let t2 := fst (addPlayer 1700000000009 (js "E") (eliminate a fourPlayers)) in
  exists late,
    nth_error (players t2) 4 = Some late /\
    map position (players (eliminate late t2))
    = [Some 4; None; None; None; Some 4].
Proof.
  intros a t2.
  destruct (late_admission_repeats_position fourPlayers 0%nat a 1700000000009 (js "E")
              ltac:(vm_compute; repeat constructor; cbn; intuition discriminate)
              ltac:(vm_compute; reflexivity) eq_refl
              ltac:(vm_compute; intuition discriminate)
              ltac:(vm_compute; reflexivity))
    as [late [Hlate _]].
  exists late. split; [exact Hlate|].
  assert (Hl : Some late
               = Some (mkPlayer 1700000000009 (js "E") 1 0 0 10000 None 0%R
                         true false false))
    by (rewrite <- Hlate; vm_compute; reflexivity).
  injection Hl as ->. vm_compute. reflexivity.
Defined.

(** X27.  For a current index that is a whole number: the level shown is the
    level of the schedule at the index when the index is in the schedule,
    and the placeholder (level 0, blinds 0/0, no break) when it is negative
    or past the end, as after a removal that left the index behind. *)
Theorem currentLevel_spec (t : Tournament) :
  (0 <= currentLevelIndex t < blindsLength t ->
   nth_error (blinds t) (Z.to_nat (currentLevelIndex t)) = Some (currentLevel t)
   /\ In (currentLevel t) (blinds t)) /\
  (currentLevelIndex t < 0 \/ blindsLength t <= currentLevelIndex t ->
   currentLevel t = mkBlind 0 0 0 0 (Some false) None).
Proof.
  unfold currentLevel, at_index, blindsLength. split.
  - intros [Hlo Hhi]. destruct (Z.ltb_spec (currentLevelIndex t) 0); [lia|].
    destruct (nth_error (blinds t) (Z.to_nat (currentLevelIndex t))) as [b|] eqn:Hb.
    + split; [reflexivity|]. eapply nth_error_In; exact Hb.
    + apply nth_error_None in Hb. lia.
  - intros [Hlo|Hhi].
    + destruct (Z.ltb_spec (currentLevelIndex t) 0); [reflexivity | lia].
    + destruct (Z.ltb_spec (currentLevelIndex t) 0); [reflexivity|].
      replace (nth_error (blinds t) (Z.to_nat (currentLevelIndex t))) with (@None BlindLevel);
        [reflexivity|].
      symmetry. apply nth_error_None. lia.
Qed.

Lemma currentLevel_spec_witness :
  In (currentLevel (newTournament "tr_1" "Torneio"))
     (blinds (newTournament "tr_1" "Torneio")) /\
  currentLevel lastLevelRemoved = mkBlind 0 0 0 0 (Some false) None.
Proof.
  split.
  - apply (proj1 (currentLevel_spec (newTournament "tr_1" "Torneio"))).
    vm_compute. intuition discriminate.
  - apply (proj2 (currentLevel_spec lastLevelRemoved)). right.
    vm_compute. discriminate.
Defined.
